(** * VSSStratEnv: stratified-reward wrapper of the VSS 3v3 soccer environment

    Shallow embedding of [envs/vss_strat.py].  The Python code computes on
    IEEE-754 binary64 numbers; every function of the class is translated once,
    over an abstract numeric interface [Num], and then read at two instances:

    - [float_num]: Rocq's primitive binary64 floats, which run the code
      bit-for-bit ([vm_compute]) and exhibit NaN;
    - [R_num]: the real numbers, the exact-arithmetic reading in which the
      algebraic and order properties of the environment are proved.

    Python exceptions ([KeyError], [TypeError], [IndexError]) are the [None]
    of an [option] result. *)

From Stdlib Require Import Reals Lra ZArith List.
From Stdlib Require PrimFloat Uint63.
From stdpp Require Import gmap.
Import ListNotations.

(** ** Numeric interface *)

Class Num (F : Type) := {
  of_Z : Z -> F;             (* an integer literal, or int -> float conversion *)
  add : F -> F -> F;
  sub : F -> F -> F;
  mul : F -> F -> F;
  div : F -> F -> F;
  neg : F -> F;
  fabs : F -> F;             (* builtin abs *)
  fsqrt : F -> F;            (* np.sqrt, as used by np.linalg.norm *)
  ltb : F -> F -> bool;      (* a < b *)
  feqb : F -> F -> bool      (* a == b *)
}.

(** The part of numpy that has no primitive-float counterpart. *)
Class NumpyExt (F : Type) := {
  np_sin : F -> F;
  np_cos : F -> F;
  np_deg2rad : F -> F;
  np_float32 : F -> F        (* the dtype=np.float32 cast of an entry *)
}.

Definition float_of_Z (z : Z) : PrimFloat.float :=
  match z with
  | Z0 => PrimFloat.of_uint63 (Uint63.of_Z 0)
  | Zpos _ => PrimFloat.of_uint63 (Uint63.of_Z z)
  | Zneg _ => PrimFloat.opp (PrimFloat.of_uint63 (Uint63.of_Z (Z.opp z)))
  end.

#[global] Instance float_num : Num PrimFloat.float := {|
  of_Z := float_of_Z;
  add := PrimFloat.add;
  sub := PrimFloat.sub;
  mul := PrimFloat.mul;
  div := PrimFloat.div;
  neg := PrimFloat.opp;
  fabs := PrimFloat.abs;
  fsqrt := PrimFloat.sqrt;
  ltb := PrimFloat.ltb;
  feqb := PrimFloat.eqb
|}.

Definition Rltb (a b : R) : bool := if Rlt_dec a b then true else false.
Definition Reqb (a b : R) : bool := if Req_dec_T a b then true else false.

#[global] Instance R_num : Num R := {|
  of_Z := IZR;
  add := Rplus;
  sub := Rminus;
  mul := Rmult;
  div := Rdiv;
  neg := Ropp;
  fabs := Rabs;
  fsqrt := R_sqrt.sqrt;
  ltb := Rltb;
  feqb := Reqb
|}.

#[global] Instance R_numpy : NumpyExt R := {|
  np_sin := sin;
  np_cos := cos;
  np_deg2rad := fun d => (d * PI / 180)%R;
  np_float32 := fun r => r
|}.

(** ** Entities of rsoccer_gym (only the attributes this file reads or sets;
    an attribute a constructor call leaves out is 0, or [false] for [yellow]). *)

Module Ball.
Record t (F : Type) := mk { x : F; y : F; v_x : F; v_y : F }.
Arguments mk {F}. Arguments x {F}. Arguments y {F}.
Arguments v_x {F}. Arguments v_y {F}.
End Ball.

Module Robot.
Record t (F : Type) := mk {
    yellow : bool; id : nat;
    x : F; y : F; theta : F;
    v_x : F; v_y : F; v_theta : F;
    v_wheel0 : F; v_wheel1 : F }.
Arguments mk {F}. Arguments yellow {F}. Arguments id {F}.
Arguments x {F}. Arguments y {F}. Arguments theta {F}.
Arguments v_x {F}. Arguments v_y {F}. Arguments v_theta {F}.
Arguments v_wheel0 {F}. Arguments v_wheel1 {F}.
End Robot.

Module Frame.
Record t (F : Type) := mk {
    ball : Ball.t F;
    robots_blue : gmap nat (Robot.t F);      (* Dict[int, Robot] *)
    robots_yellow : gmap nat (Robot.t F) }.
Arguments mk {F}. Arguments ball {F}.
Arguments robots_blue {F}. Arguments robots_yellow {F}.
End Frame.

(** Field parameters handed over by the simulator. *)
Module Field.
Record t (F : Type) := mk { length : F; width : F; rbt_wheel_radius : F }.
Arguments mk {F}. Arguments length {F}. Arguments width {F}.
Arguments rbt_wheel_radius {F}.
End Field.

(** A reward vector [np.zeros(4)]: move, ball gradient, energy, goal. *)
Record Vec4 (F : Type) := mkVec4 { r0 : F; r1 : F; r2 : F; r3 : F }.
Arguments mkVec4 {F}. Arguments r0 {F}. Arguments r1 {F}.
Arguments r2 {F}. Arguments r3 {F}.

(** The dict [cumulative_reward_info]; the two goal keys are absent until
    [step] writes them. *)
Record Info (F : Type) := mkInfo {
  reward_move : F;
  reward_ball_grad : F;
  reward_energy : F;
  reward_goal : F;
  Original_reward : F;
  goal_blue : option Z;
  goal_yellow : option Z }.
Arguments mkInfo {F}. Arguments reward_move {F}. Arguments reward_ball_grad {F}.
Arguments reward_energy {F}. Arguments reward_goal {F}.
Arguments Original_reward {F}. Arguments goal_blue {F}. Arguments goal_yellow {F}.

(** What [step] hands to the consumer as reward. *)
Inductive Reward (F : Type) :=
| Stratified (v : Vec4 F)
| Scalar (s : F).
Arguments Stratified {F}. Arguments Scalar {F}.

(** ** External collaborators

    The rSim physics engine behind [self.rsim], the Ornstein-Uhlenbeck noise
    source of every robot, and the three normalisers inherited from
    [VSSBaseEnv] are not part of this repository: the environment is
    parametrised by them. *)

Class Collaborators (F : Type) := {
  Sim : Type;
  rsim_send_commands : Sim -> list (Robot.t F) -> Sim;
  rsim_get_frame : Sim -> Frame.t F;
  rsim_reset : Sim -> Frame.t F -> Sim;
  OU : Type;
  ou_sample : OU -> (F * F) * OU;
  ou_reset : OU -> OU;
  norm_pos : F -> F;
  norm_v : F -> F;
  norm_w : F -> F
}.

(** ** The environment class *)

Section Environment.
Context {F : Type} {num : Num F} {npx : NumpyExt F} {ext : Collaborators F}.

(** A decimal literal [n/d]: the correctly rounded quotient of two exactly
    represented integers is the binary64 value Python parses the literal to. *)
Definition dec (n d : Z) : F := div (of_Z n) (of_Z d).

Definition gtb (a b : F) : bool := ltb b a.

(** Attributes fixed by [__init__] and never assigned again. *)
Definition v_wheel_deadzone : F := dec 5 100.
Definition energy_scale : F := of_Z 40000.
Definition grad_scale : F := dec 75 100.
Definition move_scale : F := of_Z 120.
Definition ori_weights : Vec4 F :=
  mkVec4 (dec 66 100) (dec 32 100) (dec 53 10000) (dec 8 1000).
Definition observation_space_shape : nat := 40.

Record Env := mkEnv {
  stratified : bool;
  n_robots_blue : nat;
  n_robots_yellow : nat;
  field : Field.t F;
  max_v : F;
  rsim : Sim;
  ou_actions : list OU;
  frame : option (Frame.t F);
  last_frame : option (Frame.t F);
  sent_commands : option (list (Robot.t F));
  actions : option (gmap nat (F * F));
  cumulative_reward_info : option (Info F);
  steps : nat }.

Definition set_info (e : Env) (i : option (Info F)) : Env :=
  mkEnv (stratified e) (n_robots_blue e) (n_robots_yellow e) (field e) (max_v e)
        (rsim e) (ou_actions e) (frame e) (last_frame e) (sent_commands e)
        (actions e) i (steps e).

(** *** numpy helpers *)

Definition np_maximum (a b : F) : F := if ltb a b then b else a.
Definition np_minimum (a b : F) : F := if ltb b a then b else a.
Definition np_clip (v lo hi : F) : F := np_minimum (np_maximum v lo) hi.
(** [np.linalg.norm] of a two-element array. *)
Definition np_norm (a b : F) : F := fsqrt (add (mul a a) (mul b b)).
Definition np_dot (a0 a1 b0 b1 : F) : F := add (mul a0 b0) (mul a1 b1).
(** [(v * w).sum()] over four entries. *)
Definition weighted_sum (v w : Vec4 F) : F :=
  add (add (add (mul (r0 v) (r0 w)) (mul (r1 v) (r1 w))) (mul (r2 v) (r2 w)))
      (mul (r3 v) (r3 w)).

(** *** _actions_to_v_wheels *)

Definition deadzone (speed : F) : F :=
  if ltb (neg v_wheel_deadzone) speed && ltb speed v_wheel_deadzone
  then of_Z 0 else speed.

(** The wheel speed after scaling, clipping and the dead-zone, before the
    conversion to rad/s. *)
Definition wheel_speed (e : Env) (a : F) : F :=
  deadzone (np_clip (mul a (max_v e)) (neg (max_v e)) (max_v e)).

Definition _actions_to_v_wheels (e : Env) (acts : F * F) : F * F :=
  (div (wheel_speed e (fst acts)) (Field.rbt_wheel_radius (field e)),
   div (wheel_speed e (snd acts)) (Field.rbt_wheel_radius (field e))).

(** *** Reward components *)

Definition __ball_grad (e : Env) : option F :=
  last ← last_frame e;
  cur ← frame e;
  let goal_x := div (Field.length (field e)) (of_Z 2) in
  let goal_y := of_Z 0 in
  let last_ball_dist :=
    np_norm (sub goal_x (Ball.x (Frame.ball last)))
            (sub goal_y (Ball.y (Frame.ball last))) in
  let ball_dist :=
    np_norm (sub goal_x (Ball.x (Frame.ball cur)))
            (sub goal_y (Ball.y (Frame.ball cur))) in
  Some (div (sub last_ball_dist ball_dist) grad_scale).

Definition __move_reward (e : Env) : option F :=
  cur ← frame e;
  rbt ← Frame.robots_blue cur !! 0%nat;
  let bx := sub (Ball.x (Frame.ball cur)) (Robot.x rbt) in
  let by_ := sub (Ball.y (Frame.ball cur)) (Robot.y rbt) in
  let n := np_norm bx by_ in
  let move_reward := np_dot (div bx n) (div by_ n) (Robot.v_x rbt) (Robot.v_y rbt) in
  Some (div move_reward move_scale).

Definition __energy_penalty (e : Env) : option F :=
  cmds ← sent_commands e;
  c ← cmds !! 0%nat;
  let en_penalty_1 := fabs (Robot.v_wheel0 c) in
  let en_penalty_2 := fabs (Robot.v_wheel1 c) in
  Some (div (neg (add en_penalty_1 en_penalty_2)) energy_scale).

Definition fresh_info : Info F :=
  mkInfo (of_Z 0) (of_Z 0) (of_Z 0) (of_Z 0) (of_Z 0) None None.

Definition accumulate (i : Info F) (rewards : Vec4 F) : Info F :=
  mkInfo (add (reward_move i) (r0 rewards))
         (add (reward_ball_grad i) (r1 rewards))
         (add (reward_energy i) (r2 rewards))
         (add (reward_goal i) (r3 rewards))
         (Original_reward i) (goal_blue i) (goal_yellow i).

(** The goal check and the three shaped components, before they are stored:
    [(move_reward, grad_ball_potential, energy_penalty, goal_reward)]. *)
Definition reward_components (e : Env) : option (F * F * F * Z) :=
  cur ← frame e;
  let half := div (Field.length (field e)) (of_Z 2) in
  if gtb (Ball.x (Frame.ball cur)) half then
    Some (of_Z 0, of_Z 0, of_Z 0, 1%Z)
  else if ltb (Ball.x (Frame.ball cur)) (neg half) then
    Some (of_Z 0, of_Z 0, of_Z 0, (-1)%Z)
  else
    match last_frame e with
    | Some _ =>
        move_reward ← __move_reward e;
        grad_ball_potential ← __ball_grad e;
        energy_penalty ← __energy_penalty e;
        Some (move_reward, grad_ball_potential, energy_penalty, 0%Z)
    | None => Some (of_Z 0, of_Z 0, of_Z 0, 0%Z)
    end.

Definition _calculate_reward_and_done (e : Env) : option (Env * (Vec4 F * bool)) :=
  let info := default fresh_info (cumulative_reward_info e) in
  '(move_reward, grad_ball_potential, energy_penalty, goal_reward) ← reward_components e;
  let rewards :=
    mkVec4 (add (of_Z 0) move_reward) (add (of_Z 0) grad_ball_potential)
           (add (of_Z 0) energy_penalty) (add (of_Z 0) (of_Z goal_reward)) in
  Some (set_info e (Some (accumulate info rewards)),
        (rewards, negb (Z.eqb goal_reward 0))).

(** *** _frame_to_observations *)

Definition blue_observation (r : Robot.t F) : list F :=
  [ norm_pos (Robot.x r); norm_pos (Robot.y r);
    np_sin (np_deg2rad (Robot.theta r)); np_cos (np_deg2rad (Robot.theta r));
    norm_v (Robot.v_x r); norm_v (Robot.v_y r); norm_w (Robot.v_theta r) ].

Definition yellow_observation (r : Robot.t F) : list F :=
  [ norm_pos (Robot.x r); norm_pos (Robot.y r);
    norm_v (Robot.v_x r); norm_v (Robot.v_y r); norm_w (Robot.v_theta r) ].

(** [for i in range(n): observation.append(...)] over one of the two dicts. *)
Fixpoint observe_robots (entries : Robot.t F -> list F)
    (robots : gmap nat (Robot.t F)) (ids : list nat) (observation : list F)
    : option (list F) :=
  match ids with
  | [] => Some observation
  | i :: ids' =>
      r ← robots !! i;
      observe_robots entries robots ids' (observation ++ entries r)
  end.

Definition _frame_to_observations (e : Env) : option (list F) :=
  cur ← frame e;
  let observation :=
    [ norm_pos (Ball.x (Frame.ball cur)); norm_pos (Ball.y (Frame.ball cur));
      norm_v (Ball.v_x (Frame.ball cur)); norm_v (Ball.v_y (Frame.ball cur)) ] in
  observation ← observe_robots blue_observation (Frame.robots_blue cur)
                   (seq 0 (n_robots_blue e)) observation;
  observation ← observe_robots yellow_observation (Frame.robots_yellow cur)
                   (seq 0 (n_robots_yellow e)) observation;
  Some (map np_float32 observation).

(** *** _get_commands *)

Definition command (yellow : bool) (id : nat) (v_wheels : F * F) : Robot.t F :=
  Robot.mk yellow id (of_Z 0) (of_Z 0) (of_Z 0) (of_Z 0) (of_Z 0) (of_Z 0)
           (fst v_wheels) (snd v_wheels).

(** Loop state: the noise sources, [self.actions] and [commands]. *)
Definition CmdState : Type := list OU * gmap nat (F * F) * list (Robot.t F).

Definition blue_command (e : Env) (i : nat) (st : CmdState) : option CmdState :=
  let '(ous, acts, commands) := st in
  ou ← ous !! i;
  let '(a, ou') := ou_sample ou in
  Some (<[i := ou']> ous, <[i := a]> acts,
        commands ++ [command false i (_actions_to_v_wheels e a)]).

Definition yellow_command (e : Env) (i : nat) (st : CmdState) : option CmdState :=
  let '(ous, acts, commands) := st in
  ou ← ous !! (n_robots_blue e + i)%nat;
  let '(a, ou') := ou_sample ou in
  Some (<[(n_robots_blue e + i)%nat := ou']> ous, acts,
        commands ++ [command true i (_actions_to_v_wheels e a)]).

Fixpoint for_range {S : Type} (body : nat -> S -> option S) (ids : list nat) (s : S)
    : option S :=
  match ids with
  | [] => Some s
  | i :: ids' => s' ← body i s; for_range body ids' s'
  end.

Definition _get_commands (e : Env) (acts : F * F) : option (Env * list (Robot.t F)) :=
  let st : CmdState :=
    (ou_actions e, <[0%nat := acts]> ∅,
     [command false 0 (_actions_to_v_wheels e acts)]) in
  st ← for_range (blue_command e) (seq 1 (n_robots_blue e - 1)) st;
  '(ous, amap, commands) ← for_range (yellow_command e) (seq 0 (n_robots_yellow e)) st;
  Some (mkEnv (stratified e) (n_robots_blue e) (n_robots_yellow e) (field e) (max_v e)
              (rsim e) ous (frame e) (last_frame e) (sent_commands e)
              (Some amap) (cumulative_reward_info e) (steps e),
        commands).

(** *** step *)

(** Modelled from the spec: [VSSBaseEnv.step] of rsoccer_gym, which [step]
    reaches through [super()] and which is not among the sources.  It counts
    the step, builds the commands for all robots ([_get_commands]), sends them
    to the engine and keeps them in [sent_commands], moves [frame] to
    [last_frame] and reads the new frame, encodes the observation and
    computes reward and termination. *)
Definition base_step (e : Env) (action : F * F)
    : option (Env * (list F * Vec4 F * bool)) :=
  '(e1, commands) ← _get_commands e action;
  let sim := rsim_send_commands (rsim e1) commands in
  let e2 :=
    mkEnv (stratified e1) (n_robots_blue e1) (n_robots_yellow e1) (field e1) (max_v e1)
          sim (ou_actions e1) (Some (rsim_get_frame sim)) (frame e1) (Some commands)
          (actions e1) (cumulative_reward_info e1) (S (steps e1)) in
  observation ← _frame_to_observations e2;
  '(e3, (reward, done)) ← _calculate_reward_and_done e2;
  Some (e3, (observation, reward, done)).

Definition goal_flag (goal : F) (side : Z) : Z :=
  if feqb goal (of_Z side) then 1%Z else 0%Z.

(** [info] is the accumulator dict itself, not a copy: the legacy total and
    the two goal flags are written into [cumulative_reward_info]. *)
Definition step (e : Env) (action : F * F)
    : option (Env * (list F * Reward F * bool * Info F)) :=
  '(e1, (observation, strat_reward, done)) ← base_step e action;
  let original_reward := weighted_sum strat_reward ori_weights in
  let reward :=
    if negb (stratified e1) then Scalar original_reward else Stratified strat_reward in
  i ← cumulative_reward_info e1;
  let info :=
    mkInfo (reward_move i) (reward_ball_grad i) (reward_energy i) (reward_goal i)
           (add (Original_reward i) original_reward)
           (Some (goal_flag (r3 strat_reward) 1))
           (Some (goal_flag (r3 strat_reward) (-1))) in
  Some (set_info e1 (Some info), (observation, reward, done, info)).

(** *** _get_initial_positions_frame *)

(** The module-level generator of [random]: the values [random.random()] is
    still to return, in order.  A draw from the empty list is [None]: the run
    is not determined by the values supplied. *)
Definition Rng : Type := list F.

(** [random.uniform(a, b)] is [a + (b - a) * random()]. *)
Definition uniform (a b : F) (u : F) : F := add a (mul (sub b a) u).

Definition random_uniform (a b : F) (rng : Rng) : option (F * Rng) :=
  match rng with
  | u :: rng' => Some (uniform a b u, rng')
  | [] => None
  end.

Definition field_half_length (e : Env) : F := div (Field.length (field e)) (of_Z 2).
Definition field_half_width (e : Env) : F := div (Field.width (field e)) (of_Z 2).

Definition x_of (e : Env) (u : F) : F :=
  uniform (add (neg (field_half_length e)) (dec 1 10)) (sub (field_half_length e) (dec 1 10)) u.
Definition y_of (e : Env) (u : F) : F :=
  uniform (add (neg (field_half_width e)) (dec 1 10)) (sub (field_half_width e) (dec 1 10)) u.

Definition min_dist : F := dec 1 10.

(** The nearest-neighbour index [KDTree] of rsoccer_gym is not among the
    sources; it is modelled by its contract, as the list of the points
    inserted so far, in insertion order. *)
Definition Point : Type := F * F.

(** Modelled from the spec: the Euclidean distance the index reports. *)
Definition kd_dist (p q : Point) : F :=
  np_norm (sub (fst p) (fst q)) (sub (snd p) (snd q)).

(** Modelled from the spec: [KDTree.insert(point)]. *)
Definition kd_insert (places : list Point) (p : Point) : list Point := places ++ [p].

(** Modelled from the spec: [KDTree.get_nearest(point)], the nearest inserted
    point and its distance; there is none in an empty index. *)
Fixpoint get_nearest (places : list Point) (pos : Point) : option (Point * F) :=
  match places with
  | [] => None
  | p :: places' =>
      match get_nearest places' pos with
      | None => Some (p, kd_dist p pos)
      | Some (q, d) =>
          if ltb (kd_dist p pos) d then Some (p, kd_dist p pos) else Some (q, d)
      end
  end.

(** [pos = (x(), y())] *)
Definition draw_pos (e : Env) (rng : Rng) : option (Point * Rng) :=
  match rng with
  | u1 :: u2 :: rng' => Some ((x_of e u1, y_of e u2), rng')
  | _ => None
  end.

(** [while places.get_nearest(pos)[1] < min_dist: pos = (x(), y())] *)
Fixpoint redraw (e : Env) (places : list Point) (pos : Point) (rng : Rng)
    {struct rng} : option (Point * Rng) :=
  match get_nearest places pos with
  | None => None
  | Some (_, d) =>
      if ltb d min_dist then
        match rng with
        | u1 :: u2 :: rng' => redraw e places (x_of e u1, y_of e u2) rng'
        | _ => None
        end
      else Some (pos, rng)
  end.

Definition placed (pos : Point) (th : F) : Robot.t F :=
  Robot.mk false 0 (fst pos) (snd pos) th (of_Z 0) (of_Z 0) (of_Z 0) (of_Z 0) (of_Z 0).

(** Loop state: [pos_frame], [places] and the generator. *)
Definition PlaceState : Type := Frame.t F * list Point * Rng.

Definition place_robot (e : Env) (yellow : bool) (i : nat) (st : PlaceState)
    : option PlaceState :=
  let '(pos_frame, places, rng) := st in
  '(pos, rng) ← draw_pos e rng;
  '(pos, rng) ← redraw e places pos rng;
  let places := kd_insert places pos in
  '(th, rng) ← random_uniform (of_Z 0) (of_Z 360) rng;
  let robot := placed pos th in
  Some (if yellow
        then Frame.mk (Frame.ball pos_frame) (Frame.robots_blue pos_frame)
                      (<[i := robot]> (Frame.robots_yellow pos_frame))
        else Frame.mk (Frame.ball pos_frame) (<[i := robot]> (Frame.robots_blue pos_frame))
                      (Frame.robots_yellow pos_frame),
        places, rng).

(** The sampler together with the final contents of [places]. *)
Definition initial_positions (e : Env) (rng : Rng) : option PlaceState :=
  '(ball_pos, rng) ← draw_pos e rng;
  let pos_frame :=
    Frame.mk (Ball.mk (fst ball_pos) (snd ball_pos) (of_Z 0) (of_Z 0)) ∅ ∅ in
  let places := kd_insert [] ball_pos in
  st ← for_range (place_robot e false) (seq 0 (n_robots_blue e)) (pos_frame, places, rng);
  for_range (place_robot e true) (seq 0 (n_robots_yellow e)) st.

Definition _get_initial_positions_frame (e : Env) (rng : Rng)
    : option (Frame.t F * Rng) :=
  '(pos_frame, _, rng) ← initial_positions e rng;
  Some (pos_frame, rng).

(** *** reset *)

(** The first three assignments and the reset of the noise sources are the
    method's own; the rest is [VSSBaseEnv.reset] of rsoccer_gym, modelled from
    the spec: it clears the step count, [last_frame] and [sent_commands],
    samples the initial placement, resets the engine onto it and reads the
    first frame. *)
Definition reset (e : Env) (rng : Rng) : option (Env * list F * Rng) :=
  let ous := map ou_reset (ou_actions e) in
  '(initial_pos_frame, rng) ← _get_initial_positions_frame e rng;
  let sim := rsim_reset (rsim e) initial_pos_frame in
  let e' :=
    mkEnv (stratified e) (n_robots_blue e) (n_robots_yellow e) (field e) (max_v e)
          sim ous (Some (rsim_get_frame sim)) None None None None 0 in
  observation ← _frame_to_observations e';
  Some (e', observation, rng).

(** *** Episodes and totals *)

(** A sequence of steps: the unweighted component vector of each step (the
    [strat_reward] that [super().step] returns) and the [info] it reports. *)
Fixpoint run (e : Env) (acts : list (F * F))
    : option (Env * list (Vec4 F) * list (Info F)) :=
  match acts with
  | [] => Some (e, [], [])
  | a :: acts' =>
      '(_, (_, strat_reward, _)) ← base_step e a;
      '(e', (_, _, _, info)) ← step e a;
      '(e'', vs, infos) ← run e' acts';
      Some (e'', strat_reward :: vs, info :: infos)
  end.

Definition total (l : list F) : F := fold_left add l (of_Z 0).

Definition weights_total (w : Vec4 F) : F :=
  add (add (add (r0 w) (r1 w)) (r2 w)) (r3 w).

(** The totals an info dict reports, against a starting dict and the vectors
    accumulated since. *)
Definition totals_from (i0 info : Info F) (vs : list (Vec4 F)) : Prop :=
  reward_move info = add (reward_move i0) (total (map r0 vs)) /\
  reward_ball_grad info = add (reward_ball_grad i0) (total (map r1 vs)) /\
  reward_energy info = add (reward_energy i0) (total (map r2 vs)) /\
  reward_goal info = add (reward_goal i0) (total (map r3 vs)) /\
  Original_reward info =
    add (Original_reward i0) (total (map (fun v => weighted_sum v ori_weights) vs)).

(** The move-to-ball component in the words of the docstring of
    [__move_reward] and of the specification: the cosine of the angle between
    the robot's velocity and the direction robot -> ball, over the divisor. *)
Definition cosine_similarity (a0 a1 b0 b1 : F) : F :=
  div (np_dot a0 a1 b0 b1) (mul (np_norm a0 a1) (np_norm b0 b1)).

Definition documented_move_reward (e : Env) : option F :=
  cur ← frame e;
  rbt ← Frame.robots_blue cur !! 0%nat;
  let bx := sub (Ball.x (Frame.ball cur)) (Robot.x rbt) in
  let by_ := sub (Ball.y (Frame.ball cur)) (Robot.y rbt) in
  let n := np_norm bx by_ in
  Some (div (cosine_similarity (Robot.v_x rbt) (Robot.v_y rbt) (div bx n) (div by_ n))
            move_scale).

(** The info dict that [step] reports, from the one the base step left. *)
Definition reported_info (i : Info F) (strat_reward : Vec4 F) : Info F :=
  mkInfo (reward_move i) (reward_ball_grad i) (reward_energy i) (reward_goal i)
         (add (Original_reward i) (weighted_sum strat_reward ori_weights))
         (Some (goal_flag (r3 strat_reward) 1))
         (Some (goal_flag (r3 strat_reward) (-1))).

(** The state in which [_calculate_reward_and_done] raises nothing: a current
    frame and, when a previous frame exists, robot 0 in the current frame and
    a first sent command. *)
Definition reward_ready (e : Env) (cur : Frame.t F) : Prop :=
  frame e = Some cur /\
  (last_frame e <> None ->
   is_Some (Frame.robots_blue cur !! 0%nat) /\
   exists c cs, sent_commands e = Some (c :: cs)).

(** A frame that holds every robot the environment was constructed for. *)
Definition frame_complete (e : Env) (fr : Frame.t F) : Prop :=
  (forall i, (i < n_robots_blue e)%nat -> is_Some (Frame.robots_blue fr !! i)) /\
  (forall i, (i < n_robots_yellow e)%nat -> is_Some (Frame.robots_yellow fr !! i)).

End Environment.

(** ** Concrete collaborators

    A simulator that holds the frame it was reset to, noise sources that
    always answer the zero action, and normalisers that leave a value as it
    is. *)

Definition still_world (F : Type) `{Num F} : Collaborators F := {|
  Sim := Frame.t F;
  rsim_send_commands := fun s _ => s;
  rsim_get_frame := fun s => s;
  rsim_reset := fun _ fr => fr;
  OU := unit;
  ou_sample := fun ou => ((of_Z 0, of_Z 0), ou);
  ou_reset := fun ou => ou;
  norm_pos := fun v => v;
  norm_v := fun v => v;
  norm_w := fun v => v
|}.

(** ** Concrete inputs *)

Abbreviation float := PrimFloat.float (only parsing).

Definition fl (n d : Z) : float := dec (F := float) n d.

Definition float_robot (x y vx vy : float) : Robot.t float :=
  Robot.mk false 0 x y (of_Z 0) vx vy (of_Z 0) (of_Z 0) (of_Z 0).

(** A 3v3 frame: the ball, blue robot 0 as given, the other five robots at
    rest on fixed spots. *)
Definition float_frame (ball_x ball_y : float) (robot0 : Robot.t float)
    : Frame.t float :=
  Frame.mk (Ball.mk ball_x ball_y (of_Z 0) (of_Z 0))
           (<[0%nat := robot0]>
            (<[1%nat := float_robot (fl (-1) 2) (fl 3 10) (of_Z 0) (of_Z 0)]>
             (<[2%nat := float_robot (fl (-1) 2) (fl (-3) 10) (of_Z 0) (of_Z 0)]> ∅)))
           (<[0%nat := float_robot (fl 6 10) (fl 0 1) (of_Z 0) (of_Z 0)]>
            (<[1%nat := float_robot (fl 6 10) (fl 3 10) (of_Z 0) (of_Z 0)]>
             (<[2%nat := float_robot (fl 6 10) (fl (-3) 10) (of_Z 0) (of_Z 0)]> ∅))).

(** A running binary64 environment on the 1.5 x 1.3 field, between two steps. *)
Definition float_env (cur : Frame.t float) (last : option (Frame.t float))
    (cmds : option (list (Robot.t float))) : Env (ext := still_world float) :=
  mkEnv (ext := still_world float) true 3 3
        (Field.mk (fl 15 10) (fl 13 10) (fl 2 100)) (fl 12 10)
        cur [tt; tt; tt; tt; tt; tt] (Some cur) last cmds None None 1.

(** Robot 0 stands exactly where the ball is, at (0.25, 0.5), and moves. *)
Definition robot_on_ball : Robot.t float :=
  float_robot (fl 1 4) (fl 1 2) (fl 1 10) (fl 2 10).
Definition frame_on_ball : Frame.t float :=
  float_frame (fl 1 4) (fl 1 2) robot_on_ball.
Definition env_on_ball : Env (ext := still_world float) :=
  float_env frame_on_ball (Some frame_on_ball)
            (Some [command false 0 (fl 1 1, fl 1 1)]).

(** Robot 0 at the origin drives straight at the ball, half a metre away on
    the x axis, with velocity (0.5, 0). *)
Definition frame_chasing : Frame.t float :=
  float_frame (fl 1 2) (fl 0 1) (float_robot (fl 0 1) (fl 0 1) (fl 1 2) (fl 0 1)).
Definition env_chasing : Env (ext := still_world float) :=
  float_env frame_chasing (Some frame_chasing)
            (Some [command false 0 (fl 0 1, fl 0 1)]).

(** A real-valued environment with one robot a side, on the same field. *)
Definition real_robot (x y vx vy : R) : Robot.t R :=
  Robot.mk false 0 x y 0%R vx vy 0%R 0%R 0%R.

Definition real_frame (ball_x : R) : Frame.t R :=
  Frame.mk (Ball.mk ball_x 0%R 0%R 0%R)
           (<[0%nat := real_robot (-1 / 2)%R 0%R 1%R 0%R]> ∅)
           (<[0%nat := real_robot (1 / 2)%R 0%R 0%R 0%R]> ∅).

Definition real_env (strat : bool) (cur : Frame.t R) (last : option (Frame.t R))
    (cmds : option (list (Robot.t R))) : Env (ext := still_world R) :=
  mkEnv (ext := still_world R) strat 1 1
        (Field.mk (15 / 10)%R (13 / 10)%R (2 / 100)%R) (12 / 10)%R
        cur [tt; tt] (Some cur) last cmds None None 0.

(** Full speed on both wheels of robot 0, and no previous frame. *)
Definition env_no_previous : Env (ext := still_world R) :=
  real_env true (real_frame 0%R) None
           (Some [command false 0 (60%R, 60%R)]).

(** An environment that was constructed and never reset: no frame yet. *)
Definition env_fresh : Env (ext := still_world R) :=
  mkEnv (ext := still_world R) true 1 1
        (Field.mk (15 / 10)%R (13 / 10)%R (2 / 100)%R) (12 / 10)%R
        (real_frame 0%R) [tt; tt] None None None None None 0.

(** The environment right after a reset onto [real_frame 0]. *)
Definition env_start (strat : bool) : Env (ext := still_world R) :=
  real_env strat (real_frame 0%R) None None.

(** Between two steps, with the ball at [ball_x] and robot 0 commanded at
    40 and -20 rad/s. *)
Definition env_running (ball_x : R) : Env (ext := still_world R) :=
  real_env false (real_frame ball_x) (Some (real_frame 0%R))
           (Some [command false 0 (40%R, (-20)%R)]).

(** Between two steps in stratified mode, the ball on the centre spot. *)
Definition env_playing : Env (ext := still_world R) :=
  real_env true (real_frame 0%R) (Some (real_frame 0%R))
           (Some [command false 0 (40%R, (-20)%R)]).

(** In legacy mode, the engine holding the ball at x = 1, past the right
    goal line of the 1.5 m field. *)
Definition env_scoring : Env (ext := still_world R) :=
  real_env false (real_frame 1%R) (Some (real_frame 1%R))
           (Some [command false 0 (40%R, (-20)%R)]).

(** ** Placement predicates *)

(** The sampling box, the minimal separation, and draws of [random()]. *)
Definition in_box {ext : Collaborators R} (e : Env) (p : R * R) : Prop :=
  (- (Field.length (field e) / 2) + 1 / 10 <= fst p <= Field.length (field e) / 2 - 1 / 10
   /\ - (Field.width (field e) / 2) + 1 / 10 <= snd p <= Field.width (field e) / 2 - 1 / 10)%R.

Definition separated (places : list (R * R)) : Prop :=
  forall i j p q,
    i <> j -> places !! i = Some p -> places !! j = Some q ->
    (1 / 10 <= kd_dist p q)%R.

Definition unit_draws (rng : list R) : Prop :=
  Forall (fun u => 0 <= u < 1)%R rng.

(** The state of the sampler after [kb] blue and [ky] yellow robots: the
    places hold the ball first, then the blue robots by id, then the yellow
    ones by id; all lie in the box and are pairwise separated. *)
Definition placement_inv {ext : Collaborators R} (e : Env) (kb ky : nat)
    (st : PlaceState (F := R)) : Prop :=
  let '(fr, places, rng) := st in
  unit_draws rng /\
  Forall (in_box e) places /\
  separated places /\
  length places = (1 + kb + ky)%nat /\
  places !! 0%nat = Some (Ball.x (Frame.ball fr), Ball.y (Frame.ball fr)) /\
  (forall i, (i < kb)%nat ->
     exists r, Frame.robots_blue fr !! i = Some r /\
               places !! (1 + i)%nat = Some (Robot.x r, Robot.y r)) /\
  (forall j, (j < ky)%nat ->
     exists r, Frame.robots_yellow fr !! j = Some r /\
               places !! (1 + kb + j)%nat = Some (Robot.x r, Robot.y r)).

(** Values of [random()] for one reset with one robot a side: the ball lands
    on the centre spot, the first position drawn for the blue robot is the
    centre spot again and is drawn anew. *)
Definition sampler_draws : list R :=
  [1 / 2; 1 / 2; 1 / 2; 1 / 2; 0; 1 / 2; 1 / 4; 3 / 4; 1 / 2; 0; 1 / 3]%R.

(** The frame these draws place on the 1.5 x 1.3 field with one robot a side:
    the ball on the centre spot, the blue robot at x = -0.65 turned by 90
    degrees, the yellow robot at x = 0.325. *)
Definition sampled_frame : Frame.t R :=
  Frame.mk (Ball.mk 0 0 0 0)%R
           (<[0%nat := placed (F := R) (-65 / 100, 0)%R (0 + (360 - 0) * (1 / 4))%R]> ∅)
           (<[0%nat := placed (F := R) (325 / 1000, 0)%R (0 + (360 - 0) * 0)%R]> ∅).

(** ** The command loop, stage by stage *)

Section CommandStages.
Context {F : Type} {num : Num F} {ext : Collaborators F}.

(** One call of [sample()] on a noise source: the action it returns and the
    source it leaves behind. *)
Definition sampled_action (ou : OU) : F * F := fst (ou_sample ou).
Definition advanced (ou : OU) : OU := snd (ou_sample ou).

(** The noise sources [sample()] has been called on once [kb - 1] blue
    team-mates and [ky] yellow robots have their command. *)
Definition was_sampled (e : Env) (kb ky i : nat) : Prop :=
  (1 <= i < kb)%nat \/ (n_robots_blue e <= i < n_robots_blue e + ky)%nat.

(** The state of [_get_commands] after the commands of blue robots below
    [kb] and of yellow robots below [ky]. *)
Definition commands_inv (e : Env) (acts : F * F) (kb ky : nat) (st : CmdState)
    : Prop :=
  let '(ous, amap, commands) := st in
  length ous = length (ou_actions e) /\
  (forall i, was_sampled e kb ky i -> ous !! i = advanced <$> ou_actions e !! i) /\
  (forall i, ~ was_sampled e kb ky i -> ous !! i = ou_actions e !! i) /\
  amap !! 0%nat = Some acts /\
  (forall i, (1 <= i < kb)%nat -> amap !! i = sampled_action <$> ou_actions e !! i) /\
  (forall i, (1 <= i)%nat -> (kb <= i)%nat -> amap !! i = None) /\
  length commands = (kb + ky)%nat /\
  commands !! 0%nat = Some (command false 0 (_actions_to_v_wheels e acts)) /\
  (forall i, (1 <= i < kb)%nat ->
     exists ou, ou_actions e !! i = Some ou /\
       commands !! i =
         Some (command false i (_actions_to_v_wheels e (sampled_action ou)))) /\
  (forall j, (j < ky)%nat ->
     exists ou, ou_actions e !! (n_robots_blue e + j)%nat = Some ou /\
       commands !! (kb + j)%nat =
         Some (command true j (_actions_to_v_wheels e (sampled_action ou)))).

End CommandStages.

(** ** Construction, returned rewards, and the sampler stage by stage *)

Section MoreEnvironment.
Context {F : Type} {num : Num F} {npx : NumpyExt F} {ext : Collaborators F}.

(** [__init__]: the simulator, the field parameters and [max_v] are set up by
    [VSSBaseEnv.__init__], and [fresh] is a new [OrnsteinUhlenbeckAction];
    one noise source is appended for every robot.  The attributes [r_min],
    [r_max] and [num_rewards] are written here and read nowhere in the class. *)
Definition __init__ (strat : bool) (nb ny : nat) (sim : Sim) (fld : Field.t F)
    (maxv : F) (fresh : OU) : Env :=
  mkEnv strat nb ny fld maxv sim (replicate (nb + ny) fresh)
        None None None None None 0.

(** The rewards a sequence of steps hands to the consumer. *)
Fixpoint returned_rewards (e : Env) (acts : list (F * F)) : option (list (Reward F)) :=
  match acts with
  | [] => Some []
  | a :: acts' =>
      '(e', (_, reward, _, _)) ← step e a;
      rs ← returned_rewards e' acts';
      Some (reward :: rs)
  end.

End MoreEnvironment.

(** A robot as the sampler leaves it: at rest, with a heading drawn by
    [random.uniform(0, 360)] from one of the values of [rng0]. *)
Definition placed_at_rest (rng0 : list R) (r : Robot.t R) : Prop :=
  (exists u, In u rng0 /\ Robot.theta r = uniform 0%R 360%R u) /\
  Robot.v_x r = 0%R /\ Robot.v_y r = 0%R /\ Robot.v_theta r = 0%R /\
  Robot.v_wheel0 r = 0%R /\ Robot.v_wheel1 r = 0%R.

(** The sampler after [kb] blue and [ky] yellow robots, against the draws
    [rng0] it started from: it used a prefix of them, two for the ball, three
    for every robot and two more for every rejected position; the frame holds
    exactly the robots placed so far. *)
Definition sampling_inv (rng0 : list R) (kb ky : nat) (st : PlaceState (F := R))
    : Prop :=
  let '(fr, places, rng) := st in
  (exists used rejected,
     rng0 = used ++ rng /\
     length used = (2 + 3 * (kb + ky) + 2 * rejected)%nat) /\
  Ball.v_x (Frame.ball fr) = 0%R /\ Ball.v_y (Frame.ball fr) = 0%R /\
  (forall i, is_Some (Frame.robots_blue fr !! i) <-> (i < kb)%nat) /\
  (forall j, is_Some (Frame.robots_yellow fr !! j) <-> (j < ky)%nat) /\
  (forall i r, Frame.robots_blue fr !! i = Some r -> placed_at_rest rng0 r) /\
  (forall j r, Frame.robots_yellow fr !! j = Some r -> placed_at_rest rng0 r).

(** * Properties *)

(** ** Properties that hold for every number model *)

Section Generic.
Context {F : Type} {num : Num F} {npx : NumpyExt F} {ext : Collaborators F}.

Lemma observe_robots_length (entries : Robot.t F -> list F) (n : nat) :
  (forall r, length (entries r) = n) ->
  forall robots ids observation out,
    observe_robots entries robots ids observation = Some out ->
    length out = (length observation + n * length ids)%nat.
Proof.
  intros Hn robots ids. induction ids as [|i ids IH]; intros obs out H; simpl in *.
  - injection H as <-. lia.
  - destruct (robots !! i) as [r|]; simpl in H; [|discriminate].
    apply IH in H. rewrite H, length_app, Hn. lia.
Qed.

Lemma observe_robots_total (entries : Robot.t F -> list F) robots ids :
  (forall i, In i ids -> is_Some (robots !! i)) ->
  forall observation, is_Some (observe_robots entries robots ids observation).
Proof.
  induction ids as [|i ids IH]; intros Hin obs; simpl.
  - eauto.
  - destruct (Hin i) as [r ->]; [now left|]. simpl.
    apply IH. intros j Hj. apply Hin. now right.
Qed.

Lemma observation_shape_solution (nb ny : nat) :
  (4 + 7 * nb + 5 * ny = observation_space_shape <-> nb = 3 /\ ny = 3)%nat.
Proof. unfold observation_space_shape. lia. Qed.

Lemma _frame_to_observations_complete (e : Env) (cur : Frame.t F) :
  frame e = Some cur ->
  frame_complete e cur ->
  exists observation,
    _frame_to_observations e = Some observation /\
    length observation = (4 + 7 * n_robots_blue e + 5 * n_robots_yellow e)%nat.
Proof.
  intros Hcur [Hb Hy]. unfold _frame_to_observations. rewrite Hcur. simpl.
  match goal with
  | |- context [observe_robots blue_observation ?m ?ids ?o] =>
      destruct (observe_robots_total blue_observation m ids) with (observation := o)
        as [ob Eb]
  end.
  { intros i Hi. apply Hb. apply in_seq in Hi. lia. }
  rewrite Eb. simpl.
  destruct (observe_robots_total yellow_observation (Frame.robots_yellow cur)
              (seq 0 (n_robots_yellow e))) with (observation := ob) as [oy Ey].
  { intros i Hi. apply Hy. apply in_seq in Hi. lia. }
  rewrite Ey. simpl.
  apply (observe_robots_length blue_observation 7) in Eb; [|reflexivity].
  apply (observe_robots_length yellow_observation 5) in Ey; [|reflexivity].
  rewrite length_seq in Eb, Ey. simpl in Eb.
  exists (map np_float32 oy). split; [reflexivity|]. rewrite length_map. lia.
Qed.

(** C10: on a frame that holds every robot of the environment, the encoder
    returns a vector of length 4 + 7 n_robots_blue + 5 n_robots_yellow; the
    declared observation shape is the constant 40 whatever the counts, and the
    two agree only for 3 blue and 3 yellow robots. *)
Theorem observation_length (e : Env) (cur : Frame.t F) :
  frame e = Some cur ->
  frame_complete e cur ->
  exists observation,
    _frame_to_observations e = Some observation /\
    length observation = (4 + 7 * n_robots_blue e + 5 * n_robots_yellow e)%nat /\
    observation_space_shape = 40%nat /\
    (length observation = observation_space_shape <->
     n_robots_blue e = 3%nat /\ n_robots_yellow e = 3%nat).
Proof.
  intros Hcur Hc.
  destruct (_frame_to_observations_complete e cur Hcur Hc) as (ob & Ho & Hlen).
  exists ob. split; [exact Ho|]. split; [exact Hlen|].
  split; [reflexivity|]. rewrite Hlen. apply observation_shape_solution.
Qed.

(** What the helper methods leave untouched. *)

Lemma for_range_total {S : Type} (P : S -> Prop) (body : nat -> S -> option S)
    (ids : list nat) :
  (forall i s, In i ids -> P s -> exists s', body i s = Some s' /\ P s') ->
  forall s, P s -> exists s', for_range body ids s = Some s' /\ P s'.
Proof.
  induction ids as [|i ids IH]; intros Hbody s Hs; simpl.
  - exists s. split; [reflexivity|exact Hs].
  - destruct (Hbody i s) as (s1 & -> & Hs1); [now left|exact Hs|]. simpl.
    apply IH; [|exact Hs1]. intros j s2 Hj. apply Hbody. now right.
Qed.

Lemma _get_commands_config (e e1 : Env) acts commands :
  _get_commands e acts = Some (e1, commands) ->
  stratified e1 = stratified e /\
  n_robots_blue e1 = n_robots_blue e /\
  n_robots_yellow e1 = n_robots_yellow e /\
  field e1 = field e /\ max_v e1 = max_v e /\ rsim e1 = rsim e /\
  frame e1 = frame e /\
  cumulative_reward_info e1 = cumulative_reward_info e.
Proof.
  unfold _get_commands. intros H.
  destruct (for_range (blue_command e) _ _) as [st|]; simpl in H; [|discriminate].
  destruct (for_range (yellow_command e) _ _) as [[[ous amap] cmds]|];
    simpl in H; [|discriminate].
  injection H as <- <-. simpl. repeat split.
Qed.

Lemma _calculate_reward_and_done_info (e e' : Env) rewards done :
  _calculate_reward_and_done e = Some (e', (rewards, done)) ->
  stratified e' = stratified e /\
  cumulative_reward_info e' =
    Some (accumulate (default fresh_info (cumulative_reward_info e)) rewards).
Proof.
  unfold _calculate_reward_and_done. intros H.
  destruct (reward_components e) as [[[[m g] en] gl]|]; simpl in H; [|discriminate].
  injection H as <- <- <-. split; reflexivity.
Qed.

Lemma base_step_info (e e1 : Env) action observation rewards done :
  base_step e action = Some (e1, (observation, rewards, done)) ->
  stratified e1 = stratified e /\
  cumulative_reward_info e1 =
    Some (accumulate (default fresh_info (cumulative_reward_info e)) rewards).
Proof.
  unfold base_step. intros H.
  destruct (_get_commands e action) as [[eg commands]|] eqn:Eg; simpl in H;
    [|discriminate].
  apply _get_commands_config in Eg.
  destruct Eg as (Hs & _ & _ & _ & _ & _ & _ & Hi).
  destruct (_frame_to_observations _) as [ob|]; simpl in H; [|discriminate].
  destruct (_calculate_reward_and_done _) as [[e3 [rw d]]|] eqn:Ec; simpl in H;
    [|discriminate].
  injection H as <- <- <- <-.
  apply _calculate_reward_and_done_info in Ec. simpl in Ec.
  destruct Ec as [Hs3 Hi3]. rewrite Hs3, Hi3, Hs, Hi. split; reflexivity.
Qed.

Lemma step_unfold (e : Env) action :
  step e action =
  match base_step e action with
  | Some (e1, (observation, strat_reward, done)) =>
      let info :=
        reported_info
          (accumulate (default fresh_info (cumulative_reward_info e)) strat_reward)
          strat_reward in
      Some (set_info e1 (Some info),
            (observation,
             if stratified e then Stratified strat_reward
             else Scalar (weighted_sum strat_reward ori_weights),
             done, info))
  | None => None
  end.
Proof.
  unfold step.
  destruct (base_step e action) as [[e1 [[ob sr] d]]|] eqn:Eb; simpl; [|reflexivity].
  apply base_step_info in Eb. destruct Eb as [Hs Hi].
  rewrite Hi, Hs. simpl. destruct (stratified e); reflexivity.
Qed.

(** [step] raises nothing when there is a noise source for every robot, a
    blue robot to control, and the simulator's frames hold every robot. *)

Lemma _get_commands_total (e : Env) (acts : F * F) :
  (n_robots_blue e + n_robots_yellow e <= length (ou_actions e))%nat ->
  exists e1 c cs, _get_commands e acts = Some (e1, c :: cs).
Proof.
  intros Hlen. unfold _get_commands.
  set (P := fun st : CmdState =>
              length (st.1.1) = length (ou_actions e) /\ exists c cs, st.2 = c :: cs).
  match goal with
  | |- context [for_range (blue_command e) ?ids ?st0] =>
      destruct (for_range_total P (blue_command e) ids) with (s := st0)
        as (st1 & -> & H1)
  end.
  { intros i [[ous amap] cmds] Hi [Hl (c & cs & Hc)]. simpl in Hl, Hc.
    apply in_seq in Hi. unfold blue_command.
    destruct (lookup_lt_is_Some_2 ous i) as [ou Hou]; [lia|].
    rewrite Hou. simpl. destruct (ou_sample ou) as [a ou'].
    eexists. split; [reflexivity|]. split; simpl.
    - rewrite length_insert. exact Hl.
    - subst cmds. eexists _, _. reflexivity. }
  { split; [reflexivity|]. eexists _, _. reflexivity. }
  simpl.
  destruct (for_range_total P (yellow_command e) (seq 0 (n_robots_yellow e)))
    with (s := st1) as ([[ous amap] cmds] & -> & H2); [|exact H1|].
  { intros i [[ous amap] cmds] Hi [Hl (c & cs & Hc)]. simpl in Hl, Hc.
    apply in_seq in Hi. unfold yellow_command.
    destruct (lookup_lt_is_Some_2 ous (n_robots_blue e + i)) as [ou Hou]; [lia|].
    rewrite Hou. simpl. destruct (ou_sample ou) as [a ou'].
    eexists. split; [reflexivity|]. split; simpl.
    - rewrite length_insert. exact Hl.
    - subst cmds. eexists _, _. reflexivity. }
  simpl. destruct H2 as [_ (c & cs & Hc)]. simpl in Hc. subst cmds.
  eexists _, _, _. reflexivity.
Qed.

Lemma reward_components_total (e : Env) (cur : Frame.t F) :
  reward_ready e cur -> is_Some (reward_components e).
Proof.
  intros [Hc Hready]. unfold reward_components. rewrite Hc. simpl.
  destruct (gtb _ _); [eauto|]. destruct (ltb _ _); [eauto|].
  destruct (last_frame e) as [last|] eqn:Hl; [|eauto].
  destruct Hready as [[rbt Hr] (c & cs & Hs)]; [discriminate|].
  unfold __move_reward, __ball_grad, __energy_penalty.
  rewrite Hc, Hl, Hs. simpl. rewrite Hr. simpl. eauto.
Qed.

Lemma base_step_total (e : Env) (action : F * F) :
  (n_robots_blue e + n_robots_yellow e <= length (ou_actions e))%nat ->
  (1 <= n_robots_blue e)%nat ->
  (forall sim, frame_complete e (rsim_get_frame sim)) ->
  is_Some (base_step e action).
Proof.
  intros Hlen Hb Hsim. unfold base_step.
  destruct (_get_commands_total e action Hlen) as (e1 & c & cs & Hg).
  rewrite Hg. simpl.
  apply _get_commands_config in Hg.
  destruct Hg as (_ & Hnb & Hny & _ & _ & _ & _ & _).
  match goal with
  | |- context [_frame_to_observations ?e2] =>
      destruct (_frame_to_observations_complete e2
                  (rsim_get_frame (rsim_send_commands (rsim e1) (c :: cs))) eq_refl)
        as (ob & -> & _);
      [|destruct (reward_components_total e2
                    (rsim_get_frame (rsim_send_commands (rsim e1) (c :: cs))))
          as [[[[m g] en] gl] Hrc]]
  end.
  - destruct (Hsim (rsim_send_commands (rsim e1) (c :: cs))) as [H1 H2].
    split; simpl; intros i Hi; [apply H1|apply H2]; congruence.
  - split; [reflexivity|]. intros _. simpl. split.
    + destruct (Hsim (rsim_send_commands (rsim e1) (c :: cs))) as [H1 _].
      apply H1. lia.
    + eexists _, _. reflexivity.
  - simpl. unfold _calculate_reward_and_done. rewrite Hrc. simpl. eauto.
Qed.

Lemma step_total (e : Env) (action : F * F) :
  (n_robots_blue e + n_robots_yellow e <= length (ou_actions e))%nat ->
  (1 <= n_robots_blue e)%nat ->
  (forall sim, frame_complete e (rsim_get_frame sim)) ->
  is_Some (step e action).
Proof.
  intros Hlen Hb Hsim. rewrite step_unfold.
  destruct (base_step_total e action Hlen Hb Hsim) as [[e1 [[ob sr] d]] ->].
  eauto.
Qed.

(** C1: whenever the base step produces the component vector [strat_reward],
    [step] hands out that very vector in stratified mode and, in legacy mode,
    its dot product with the fixed weights 0.66, 0.32, 0.0053, 0.008, which is
    a function of the components and the weights alone; [step] fails exactly
    when the base step does. *)
Theorem step_reward_by_mode (e : Env) (action : F * F) :
  match base_step e action with
  | Some (_, (observation, strat_reward, done)) =>
      exists e' info,
        step e action =
          Some (e', (observation,
                     if stratified e then Stratified strat_reward
                     else Scalar (weighted_sum strat_reward ori_weights),
                     done, info)) /\
        weighted_sum strat_reward ori_weights =
          add (add (add (mul (r0 strat_reward) (dec 66 100))
                        (mul (r1 strat_reward) (dec 32 100)))
                   (mul (r2 strat_reward) (dec 53 10000)))
              (mul (r3 strat_reward) (dec 8 1000))
  | None => step e action = None
  end.
Proof.
  rewrite step_unfold.
  destruct (base_step e action) as [[e1 [[ob sr] d]]|]; [|reflexivity].
  eexists _, _. split; reflexivity.
Qed.

End Generic.

(** ** Properties read on binary64 *)

(** C9: for some frame in which the learning robot stands exactly on the
    ball, the unguarded division by the norm of the robot-to-ball vector makes
    the move component NaN, both as returned by [__move_reward] and as stored
    in the first entry of the step's reward vector. *)
Theorem move_reward_nan_on_ball :
  exists (e : Env (ext := still_world float)) cur rbt,
    frame e = Some cur /\
    Frame.robots_blue cur !! 0%nat = Some rbt /\
    Robot.x rbt = Ball.x (Frame.ball cur) /\
    Robot.y rbt = Ball.y (Frame.ball cur) /\
    (exists m, __move_reward e = Some m /\ PrimFloat.is_nan m = true) /\
    (exists e' rewards done,
        _calculate_reward_and_done e = Some (e', (rewards, done)) /\
        PrimFloat.is_nan (r0 rewards) = true).
Proof.
  exists env_on_ball, frame_on_ball, robot_on_ball.
  split; [reflexivity|]. split; [reflexivity|].
  split; [reflexivity|]. split; [reflexivity|]. split.
  - eexists. split; [vm_compute; reflexivity|]. vm_compute. reflexivity.
  - eexists _, _, _. split; [reflexivity|]. vm_compute. reflexivity.
Qed.

(** C5, on the code: for a robot that drives straight at the ball at
    0.5 m/s the cosine is 1 and the documented component is 1/120, but
    [__move_reward] returns 0.5/120, which is what the step's reward vector
    carries: the velocity is never normalised. *)
Theorem move_reward_scales_with_speed :
  __move_reward env_chasing = Some (fl 1 240) /\
  documented_move_reward env_chasing = Some (fl 1 120) /\
  feqb (fl 1 240) (fl 1 120) = false /\
  exists e' rewards,
    _calculate_reward_and_done env_chasing = Some (e', (rewards, false)) /\
    r0 rewards = fl 1 240.
Proof.
  split; [vm_compute; reflexivity|]. split; [vm_compute; reflexivity|].
  split; [vm_compute; reflexivity|].
  eexists _, _. split; [reflexivity|]. vm_compute. reflexivity.
Qed.

(** The binary64 sum of the legacy weights is not 1 either. *)
Example ori_weights_total_binary64 :
  feqb (weights_total (ori_weights (F := float))) (of_Z 1) = false /\
  ltb (weights_total (ori_weights (F := float))) (of_Z 1) = true.
Proof. split; vm_compute; reflexivity. Qed.

(** ** Properties read on the reals *)

Open Scope R_scope.

(** C4, as stated: the legacy weights do not sum to 1. *)
Lemma ori_weights_total_not_1 : weights_total (ori_weights (F := R)) <> 1.
Proof. unfold weights_total, ori_weights, dec. simpl. lra. Qed.

(** C4, amended: the legacy weights 0.66, 0.32, 0.0053 and 0.008 sum to
    0.9933. *)
Theorem ori_weights_total :
  ori_weights (F := R) = mkVec4 (66 / 100) (32 / 100) (53 / 10000) (8 / 1000) /\
  weights_total (ori_weights (F := R)) = 9933 / 10000.
Proof. split; [reflexivity|]. unfold weights_total, ori_weights, dec. simpl. lra. Qed.

Lemma Rltb_true (a b : R) : a < b -> Rltb a b = true.
Proof. intros H. unfold Rltb. destruct (Rlt_dec a b); [reflexivity|contradiction]. Qed.

Lemma Rltb_false (a b : R) : ~ a < b -> Rltb a b = false.
Proof. intros H. unfold Rltb. destruct (Rlt_dec a b); [contradiction|reflexivity]. Qed.

Lemma Rltb_iff (a b : R) : Rltb a b = true <-> a < b.
Proof.
  unfold Rltb. destruct (Rlt_dec a b); split; intros H;
    try reflexivity; try assumption; try discriminate; contradiction.
Qed.

(** Settle every comparison of the goal whose sides are known numbers. *)
Ltac settle_Rltb :=
  repeat match goal with
         | |- context [Rltb ?a ?b] =>
             first [ rewrite (Rltb_true a b) by lra
                   | rewrite (Rltb_false a b) by lra ]
         end.

Section Reals.
Context {ext : Collaborators R}.

Lemma reward_components_goal_blue (e : Env) cur :
  frame e = Some cur ->
  Ball.x (Frame.ball cur) > Field.length (field e) / 2 ->
  reward_components e = Some (0, 0, 0, 1%Z).
Proof.
  intros Hc Hx. unfold reward_components, gtb. rewrite Hc. simpl.
  rewrite Rltb_true by lra. reflexivity.
Qed.

Lemma reward_components_goal_yellow (e : Env) cur :
  frame e = Some cur ->
  ~ Ball.x (Frame.ball cur) > Field.length (field e) / 2 ->
  Ball.x (Frame.ball cur) < - (Field.length (field e) / 2) ->
  reward_components e = Some (0, 0, 0, (-1)%Z).
Proof.
  intros Hc Hx Hy. unfold reward_components, gtb. rewrite Hc. simpl.
  rewrite Rltb_false by lra. rewrite Rltb_true by lra. reflexivity.
Qed.

Lemma reward_components_first (e : Env) cur :
  frame e = Some cur ->
  ~ Ball.x (Frame.ball cur) > Field.length (field e) / 2 ->
  ~ Ball.x (Frame.ball cur) < - (Field.length (field e) / 2) ->
  last_frame e = None ->
  reward_components e = Some (0, 0, 0, 0%Z).
Proof.
  intros Hc Hx Hy Hl. unfold reward_components, gtb. rewrite Hc, Hl. simpl.
  rewrite !Rltb_false by lra. reflexivity.
Qed.

Lemma reward_components_shaped (e : Env) cur last rbt c cs :
  frame e = Some cur ->
  ~ Ball.x (Frame.ball cur) > Field.length (field e) / 2 ->
  ~ Ball.x (Frame.ball cur) < - (Field.length (field e) / 2) ->
  last_frame e = Some last ->
  Frame.robots_blue cur !! 0%nat = Some rbt ->
  sent_commands e = Some (c :: cs) ->
  exists move grad,
    __move_reward e = Some move /\ __ball_grad e = Some grad /\
    reward_components e =
      Some (move, grad,
            - (Rabs (Robot.v_wheel0 c) + Rabs (Robot.v_wheel1 c)) / 40000,
            0%Z).
Proof.
  intros Hc Hx Hy Hl Hr Hs.
  unfold reward_components, gtb, __move_reward, __ball_grad, __energy_penalty.
  rewrite Hc, Hl, Hs. simpl. rewrite Hr. simpl.
  rewrite !Rltb_false by lra.
  eexists _, _. repeat split.
Qed.

(** The reward vector and flag for given components. *)
Lemma _calculate_reward_and_done_of (e : Env) move grad energy goal :
  reward_components e = Some (move, grad, energy, goal) ->
  exists e',
    _calculate_reward_and_done e =
      Some (e', (mkVec4 (0 + move) (0 + grad) (0 + energy) (0 + IZR goal),
                 negb (Z.eqb goal 0))).
Proof.
  intros H. unfold _calculate_reward_and_done. rewrite H. simpl.
  eexists. reflexivity.
Qed.

(** C2: the goal component is +1 when the ball's x exceeds half the field
    length, otherwise -1 when it is below minus half the length, otherwise 0;
    on a goal the move, gradient and energy components are 0; and the done
    flag is raised exactly when the goal component is not 0. *)
Theorem goal_component (e : Env) (cur : Frame.t R) :
  reward_ready e cur ->
  exists e' rewards done,
    _calculate_reward_and_done e = Some (e', (rewards, done)) /\
    let x := Ball.x (Frame.ball cur) in
    let half := Field.length (field e) / 2 in
    (x > half -> r3 rewards = 1) /\
    (~ x > half -> x < - half -> r3 rewards = -1) /\
    (~ x > half -> ~ x < - half -> r3 rewards = 0) /\
    (r3 rewards <> 0 ->
     r0 rewards = 0 /\ r1 rewards = 0 /\ r2 rewards = 0) /\
    (done = true <-> r3 rewards <> 0).
Proof.
  intros [Hc Hready]. simpl.
  destruct (Rlt_dec (Field.length (field e) / 2) (Ball.x (Frame.ball cur))) as [Hb|Hb].
  { destruct (_calculate_reward_and_done_of e _ _ _ _
                (reward_components_goal_blue e cur Hc Hb)) as [e' He].
    eexists _, _, _. split; [exact He|]. simpl.
    repeat split; intros; try lra; try reflexivity; try contradiction. }
  destruct (Rlt_dec (Ball.x (Frame.ball cur)) (- (Field.length (field e) / 2)))
    as [Hy|Hy].
  { destruct (_calculate_reward_and_done_of e _ _ _ _
                (reward_components_goal_yellow e cur Hc Hb Hy)) as [e' He].
    eexists _, _, _. split; [exact He|]. simpl.
    repeat split; intros; try lra; try reflexivity; try contradiction. }
  destruct (last_frame e) as [last|] eqn:Hl.
  - destruct Hready as [[rbt Hr] (c & cs & Hs)]; [discriminate|].
    destruct (reward_components_shaped e cur last rbt c cs Hc Hb Hy Hl Hr Hs)
      as (move & grad & _ & _ & Hrc).
    destruct (_calculate_reward_and_done_of e _ _ _ _ Hrc) as [e' He].
    eexists _, _, _. split; [exact He|]. simpl.
    repeat split; intros; try lra; try discriminate; try contradiction.
  - destruct (_calculate_reward_and_done_of e _ _ _ _
                (reward_components_first e cur Hc Hb Hy Hl)) as [e' He].
    eexists _, _, _. split; [exact He|]. simpl.
    repeat split; intros; try lra; try discriminate; try contradiction.
Qed.

(** The guard of the shaped components, read on [_calculate_reward_and_done]
    alone: without a goal the energy component is minus the sum of the
    absolute wheel speeds last sent to robot 0, over 40000, when [last_frame]
    is set, and 0 when it is not. *)
Theorem energy_component (e : Env) (cur : Frame.t R) :
  reward_ready e cur ->
  ~ Ball.x (Frame.ball cur) > Field.length (field e) / 2 ->
  ~ Ball.x (Frame.ball cur) < - (Field.length (field e) / 2) ->
  exists e' rewards,
    _calculate_reward_and_done e = Some (e', (rewards, false)) /\
    (forall c cs,
        last_frame e <> None -> sent_commands e = Some (c :: cs) ->
        r2 rewards
        = - (Rabs (Robot.v_wheel0 c) + Rabs (Robot.v_wheel1 c)) / 40000) /\
    (last_frame e = None -> r2 rewards = 0).
Proof.
  intros [Hc Hready] Hb Hy.
  destruct (last_frame e) as [last|] eqn:Hl.
  - destruct Hready as [[rbt Hr] (c & cs & Hs)]; [discriminate|].
    destruct (reward_components_shaped e cur last rbt c cs Hc Hb Hy Hl Hr Hs)
      as (move & grad & _ & _ & Hrc).
    destruct (_calculate_reward_and_done_of e _ _ _ _ Hrc) as [e' He].
    eexists _, _. split; [exact He|]. simpl. split.
    + intros c' cs' _ Hs'. rewrite Hs in Hs'. injection Hs' as <- <-. lra.
    + discriminate.
  - destruct (_calculate_reward_and_done_of e _ _ _ _
                (reward_components_first e cur Hc Hb Hy Hl)) as [e' He].
    eexists _, _. split; [exact He|]. simpl. split.
    + intros c cs Hne. contradiction.
    + intros _. lra.
Qed.

(** *** The actuator mapper *)

Lemma np_clip_bounds (v m : R) : 0 <= m -> - m <= np_clip v (- m) m <= m.
Proof.
  intros Hm. unfold np_clip, np_minimum, np_maximum. simpl. unfold Rltb.
  destruct (Rlt_dec v (- m)); destruct (Rlt_dec m _); lra.
Qed.

Lemma deadzone_zero (v : R) : Rabs v < 5 / 100 -> deadzone v = 0.
Proof.
  intros H. apply Rabs_def2 in H. unfold deadzone, v_wheel_deadzone, dec. simpl.
  rewrite !Rltb_true by lra. reflexivity.
Qed.

Lemma deadzone_bounds (v m : R) : 0 <= m -> - m <= v <= m -> - m <= deadzone v <= m.
Proof.
  intros Hm Hv. unfold deadzone. simpl.
  destruct (Rltb _ v && Rltb v _); lra.
Qed.

Lemma wheel_speed_bounds (e : Env) (a : R) :
  0 <= max_v e -> - max_v e <= wheel_speed e a <= max_v e.
Proof.
  intros Hm. unfold wheel_speed. apply deadzone_bounds; [exact Hm|].
  apply np_clip_bounds. exact Hm.
Qed.

Lemma Rabs_div_le (v m r : R) : 0 < r -> - m <= v <= m -> Rabs (v / r) <= m / r.
Proof.
  intros Hr Hv. unfold Rdiv. rewrite Rabs_mult.
  rewrite (Rabs_pos_eq (/ r)) by (left; apply Rinv_0_lt_compat; exact Hr).
  apply Rmult_le_compat_r; [left; apply Rinv_0_lt_compat; exact Hr|].
  apply Rabs_le. exact Hv.
Qed.

Lemma np_clip_abs_le (v m : R) : 0 <= m -> Rabs (np_clip v (- m) m) <= Rabs v.
Proof.
  intros Hm. unfold np_clip, np_minimum, np_maximum. simpl. unfold Rltb.
  destruct (Rlt_dec v (- m)); destruct (Rlt_dec m _);
    unfold Rabs; repeat destruct (Rcase_abs _); lra.
Qed.

(** C7: for an action in [-1, 1] x [-1, 1] (with a maximal speed that is not
    negative and a positive wheel radius) both wheel speeds returned are at
    most max_v / rbt_wheel_radius in absolute value; and a scaled speed of
    magnitude below 0.05, before or after clipping, is replaced by 0 before
    the division, so that the wheel speed returned is 0 / rbt_wheel_radius,
    which is 0. *)
Theorem _actions_to_v_wheels_bounds (e : Env) (acts : R * R) :
  -1 <= fst acts <= 1 -> -1 <= snd acts <= 1 ->
  0 <= max_v e -> 0 < Field.rbt_wheel_radius (field e) ->
  let bound := max_v e / Field.rbt_wheel_radius (field e) in
  let clipped a := np_clip (a * max_v e) (- max_v e) (max_v e) in
  Rabs (fst (_actions_to_v_wheels e acts)) <= bound /\
  Rabs (snd (_actions_to_v_wheels e acts)) <= bound /\
  (Rabs (clipped (fst acts)) < 5 / 100 ->
   wheel_speed e (fst acts) = 0 /\ fst (_actions_to_v_wheels e acts) = 0) /\
  (Rabs (clipped (snd acts)) < 5 / 100 ->
   wheel_speed e (snd acts) = 0 /\ snd (_actions_to_v_wheels e acts) = 0) /\
  (Rabs (fst acts * max_v e) < 5 / 100 -> fst (_actions_to_v_wheels e acts) = 0) /\
  (Rabs (snd acts * max_v e) < 5 / 100 -> snd (_actions_to_v_wheels e acts) = 0) /\
  _actions_to_v_wheels e acts =
    (deadzone (clipped (fst acts)) / Field.rbt_wheel_radius (field e),
     deadzone (clipped (snd acts)) / Field.rbt_wheel_radius (field e)).
Proof.
  intros _ _ Hm Hr. simpl.
  assert (Hzero : forall a,
             Rabs (np_clip (a * max_v e) (- max_v e) (max_v e)) < 5 / 100 ->
             wheel_speed e a = 0 /\
             wheel_speed e a / Field.rbt_wheel_radius (field e) = 0).
  { intros a Ha. unfold wheel_speed. rewrite deadzone_zero by exact Ha.
    split; [reflexivity|]. lra. }
  split; [apply Rabs_div_le; [exact Hr|]; apply wheel_speed_bounds; exact Hm|].
  split; [apply Rabs_div_le; [exact Hr|]; apply wheel_speed_bounds; exact Hm|].
  split; [apply Hzero|]. split; [apply Hzero|].
  split; [|split; [|reflexivity]]; intros Ha; apply Hzero;
    eapply Rle_lt_trans; [apply np_clip_abs_le; exact Hm|exact Ha
                         |apply np_clip_abs_le; exact Hm|exact Ha].
Qed.

(** *** Episode totals *)

Lemma fold_left_Rplus (l : list R) (a : R) :
  fold_left Rplus l a = a + fold_left Rplus l 0.
Proof.
  revert a. induction l as [|x l IH]; intros a; simpl.
  - lra.
  - rewrite (IH (a + x)), (IH (0 + x)). lra.
Qed.

Lemma total_cons (x : R) (l : list R) : total (x :: l) = x + total l.
Proof. unfold total. simpl. rewrite fold_left_Rplus. lra. Qed.

Lemma total_nil : total (F := R) [] = 0.
Proof. reflexivity. Qed.

Lemma run_totals (acts : list (R * R)) :
  forall (e e' : Env) vs infos,
    run e acts = Some (e', vs, infos) ->
    length vs = length acts /\ length infos = length acts /\
    forall info,
      last infos = Some info ->
      totals_from (default fresh_info (cumulative_reward_info e)) info vs.
Proof.
  induction acts as [|a acts IH]; intros e e' vs infos H; simpl in H.
  - injection H as <- <- <-. repeat split; discriminate.
  - rewrite step_unfold in H.
    destruct (base_step e a) as [[e1 [[ob sr] d]]|]; simpl in H; [|discriminate].
    destruct (run _ acts) as [[[e2 vs'] infos']|] eqn:Er; simpl in H; [|discriminate].
    injection H as <- <- <-.
    apply IH in Er. destruct Er as (Hv & Hi & Ht). simpl in Ht.
    split; [simpl; congruence|]. split; [simpl; congruence|].
    intros info Hlast.
    destruct infos' as [|i1 infos'].
    + destruct vs' as [|? ?]; [|simpl in *; congruence].
      simpl in Hlast. injection Hlast as <-.
      unfold totals_from. simpl. rewrite !total_cons, !total_nil.
      repeat split; lra.
    + assert (Hl : last (i1 :: infos') = Some info) by exact Hlast.
      apply Ht in Hl. unfold totals_from in *. simpl in *.
      rewrite !total_cons.
      destruct Hl as (H0 & H1 & H2 & H3 & H4).
      rewrite H0, H1, H2, H3, H4. repeat split; lra.
Qed.

(** C6: after N steps of an episode (the accumulator is absent at its start)
    the totals in the info reported by the N-th step are the sums of the N
    unweighted component vectors, entry by entry, and the legacy total is the
    sum of their weighted scalars, in stratified and in legacy mode alike. *)
Theorem episode_totals (e e' : Env) (acts : list (R * R)) vs infos info :
  cumulative_reward_info e = None ->
  run e acts = Some (e', vs, infos) ->
  last infos = Some info ->
  length vs = length acts /\
  reward_move info = total (map r0 vs) /\
  reward_ball_grad info = total (map r1 vs) /\
  reward_energy info = total (map r2 vs) /\
  reward_goal info = total (map r3 vs) /\
  Original_reward info = total (map (fun v => weighted_sum v ori_weights) vs).
Proof.
  intros Hnone Hrun Hlast.
  apply run_totals in Hrun. destruct Hrun as (Hv & _ & Ht).
  apply Ht in Hlast. rewrite Hnone in Hlast. unfold totals_from in Hlast.
  destruct Hlast as (H0 & H1 & H2 & H3 & H4).
  rewrite H0, H1, H2, H3, H4. simpl.
  split; [exact Hv|]. repeat split; lra.
Qed.

(** *** The placement sampler *)

Lemma for_range_seq_inv {S : Type} (P : nat -> S -> Prop) (body : nat -> S -> option S) :
  forall n s st st',
    (forall k x x', (s <= k < s + n)%nat -> P k x -> body k x = Some x' -> P (Datatypes.S k) x') ->
    P s st ->
    for_range body (seq s n) st = Some st' ->
    P (s + n)%nat st'.
Proof.
  induction n as [|n IH]; intros s st st' Hbody Hst H; simpl in H.
  - injection H as <-. replace (s + 0)%nat with s by lia. exact Hst.
  - destruct (body s st) as [st1|] eqn:E; simpl in H; [|discriminate].
    replace (s + Datatypes.S n)%nat with (Datatypes.S s + n)%nat by lia.
    eapply IH; [| |exact H].
    + intros k x x' Hk. apply Hbody. lia.
    + eapply Hbody; [|exact Hst|exact E]. lia.
Qed.

Lemma uniform_between (a b u : R) :
  a <= b -> 0 <= u < 1 -> a <= uniform a b u <= b.
Proof. intros Hab Hu. unfold uniform. simpl. nra. Qed.

Lemma drawn_in_box (e : Env) (u1 u2 : R) :
  1 / 10 <= Field.length (field e) / 2 ->
  1 / 10 <= Field.width (field e) / 2 ->
  0 <= u1 < 1 -> 0 <= u2 < 1 ->
  in_box e (x_of e u1, y_of e u2).
Proof.
  intros Hl Hw H1 H2. unfold in_box, x_of, y_of, field_half_length,
    field_half_width, dec. simpl.
  split; apply uniform_between; try assumption; lra.
Qed.

Lemma kd_dist_sym (p q : R * R) : kd_dist p q = kd_dist q p.
Proof. unfold kd_dist, np_norm. simpl. f_equal. ring. Qed.

Lemma get_nearest_least (places : list (R * R)) (pos : R * R) :
  forall q d,
    get_nearest places pos = Some (q, d) ->
    forall p, In p places -> d <= kd_dist p pos.
Proof.
  induction places as [|p0 places IH]; intros q d H p Hin.
  - contradiction.
  - cbn [get_nearest] in H. cbn [ltb R_num] in H.
    destruct (get_nearest places pos) as [[q1 d1]|] eqn:E.
    + specialize (IH _ _ eq_refl).
      destruct (Rltb (kd_dist p0 pos) d1) eqn:Hlt.
      * assert (Hd : d = kd_dist p0 pos) by congruence. rewrite Hd.
        apply Rltb_iff in Hlt. destruct Hin as [<-|Hin]; [lra|].
        specialize (IH p Hin). lra.
      * assert (Hd : d = d1) by congruence. rewrite Hd.
        assert (Hge : ~ kd_dist p0 pos < d1).
        { intros Hc. apply Rltb_iff in Hc. congruence. }
        destruct Hin as [<-|Hin]; [lra|]. exact (IH p Hin).
    + assert (Hd : d = kd_dist p0 pos) by congruence. rewrite Hd.
      destruct Hin as [<-|Hin]; [lra|].
      destruct places; [contradiction|]. cbn [get_nearest] in E.
      destruct (get_nearest places pos) as [[? ?]|]; [|discriminate].
      destruct (ltb _ _); discriminate.
Qed.

Lemma redraw_eq (e : Env) places pos (rng : Rng) :
  redraw e places pos rng =
  match get_nearest places pos with
  | None => None
  | Some (_, d) =>
      if Rltb d (1 / 10) then
        match rng with
        | u1 :: u2 :: rng' => redraw e places (x_of e u1, y_of e u2) rng'
        | _ => None
        end
      else Some (pos, rng)
  end.
Proof. destruct rng; reflexivity. Qed.

Section Sampler.
Variable e : Env.
Hypothesis length_ok : 1 / 10 <= Field.length (field e) / 2.
Hypothesis width_ok : 1 / 10 <= Field.width (field e) / 2.

Lemma redraw_accepts places :
  forall n (rng : Rng) pos pos' rng',
    (length rng <= n)%nat ->
    unit_draws rng -> in_box e pos ->
    redraw e places pos rng = Some (pos', rng') ->
    unit_draws rng' /\ in_box e pos' /\
    forall p, In p places -> 1 / 10 <= kd_dist p pos'.
Proof.
  induction n as [|n IH]; intros rng pos pos' rng' Hn Hu Hb H;
    rewrite redraw_eq in H;
    destruct (get_nearest places pos) as [[q d]|] eqn:Eq; try discriminate;
    destruct (Rltb d (1 / 10)) eqn:Ed.
  - destruct rng as [|u1 [|u2 rng]]; try discriminate. simpl in Hn. lia.
  - injection H as <- <-. split; [exact Hu|]. split; [exact Hb|].
    intros p Hp. pose proof (get_nearest_least _ _ _ _ Eq p Hp) as Hd.
    assert (~ d < 1 / 10) by (intros Hc; apply Rltb_iff in Hc; congruence).
    lra.
  - destruct rng as [|u1 [|u2 rng]]; try discriminate.
    apply Forall_cons in Hu. destruct Hu as [H1 Hu].
    apply Forall_cons in Hu. destruct Hu as [H2 Hu].
    eapply IH; [| exact Hu | | exact H].
    + simpl in Hn. lia.
    + apply drawn_in_box; assumption.
  - injection H as <- <-. split; [exact Hu|]. split; [exact Hb|].
    intros p Hp. pose proof (get_nearest_least _ _ _ _ Eq p Hp) as Hd.
    assert (~ d < 1 / 10) by (intros Hc; apply Rltb_iff in Hc; congruence).
    lra.
Qed.

Lemma separated_snoc (places : list (R * R)) (pos : R * R) :
  separated places ->
  (forall p, In p places -> 1 / 10 <= kd_dist p pos) ->
  separated (places ++ [pos]).
Proof.
  intros Hsep Hnew i j p q Hne Hi Hj.
  apply lookup_snoc_Some in Hi. apply lookup_snoc_Some in Hj.
  destruct Hi as [[Hi Hp]|[Hi <-]]; destruct Hj as [[Hj Hq]|[Hj <-]].
  - exact (Hsep i j p q Hne Hp Hq).
  - apply Hnew. apply list_elem_of_In. eapply list_elem_of_lookup_2. exact Hp.
  - rewrite kd_dist_sym. apply Hnew. apply list_elem_of_In.
    eapply list_elem_of_lookup_2. exact Hq.
  - congruence.
Qed.

(** One round of either loop: a position in the box, far from every place
    taken so far, is appended and stored under id [i]. *)
Lemma place_robot_places (yellow : bool) (i : nat) fr places rng st' :
  unit_draws rng ->
  place_robot e yellow i (fr, places, rng) = Some st' ->
  exists pos th rng',
    st' = (if yellow
           then Frame.mk (Frame.ball fr) (Frame.robots_blue fr)
                         (<[i := placed pos th]> (Frame.robots_yellow fr))
           else Frame.mk (Frame.ball fr) (<[i := placed pos th]> (Frame.robots_blue fr))
                         (Frame.robots_yellow fr),
           places ++ [pos], rng') /\
    unit_draws rng' /\ in_box e pos /\
    forall p, In p places -> 1 / 10 <= kd_dist p pos.
Proof.
  intros Hu H. unfold place_robot in H.
  destruct rng as [|u1 [|u2 rng]]; try discriminate. cbn [draw_pos mbind option_bind] in H.
  apply Forall_cons in Hu. destruct Hu as [H1 Hu].
  apply Forall_cons in Hu. destruct Hu as [H2 Hu].
  destruct (redraw e places (x_of e u1, y_of e u2) rng) as [[pos rng1]|] eqn:Er;
    [|discriminate].
  apply (redraw_accepts places (length rng)) in Er;
    [|lia|exact Hu|apply drawn_in_box; assumption].
  destruct Er as (Hu1 & Hb & Hfar). cbn [mbind option_bind] in H.
  destruct rng1 as [|u3 rng2]; [discriminate|].
  apply Forall_cons in Hu1. destruct Hu1 as [H3 Hu2].
  cbn [random_uniform mbind option_bind] in H. injection H as <-.
  exists pos, (uniform 0 360 u3), rng2.
  split; [reflexivity|]. split; [exact Hu2|]. split; [exact Hb|exact Hfar].
Qed.

Lemma placed_pos (pos : R * R) (th : R) :
  (Robot.x (placed pos th), Robot.y (placed pos th)) = pos.
Proof. destruct pos. reflexivity. Qed.

Lemma place_blue_inv (k : nat) st st' :
  placement_inv e k 0 st ->
  place_robot e false k st = Some st' ->
  placement_inv e (S k) 0 st'.
Proof.
  destruct st as [[fr places] rng].
  intros (Hu & Hbox & Hsep & Hlen & Hball & Hblue & _) H.
  apply place_robot_places in H; [|exact Hu].
  destruct H as (pos & th & rng' & -> & Hu' & Hb & Hfar).
  unfold placement_inv. cbn [Frame.ball Frame.robots_blue Frame.robots_yellow].
  unfold Point in *.
  split; [exact Hu'|]. split.
  { apply Forall_app. split; [exact Hbox|]. apply Forall_cons. split; [exact Hb|constructor]. }
  split; [apply separated_snoc; assumption|].
  split; [rewrite length_app, Hlen; simpl; lia|].
  split; [rewrite lookup_app_l by lia; exact Hball|].
  split; [|intros j Hj; lia].
  intros i Hi. destruct (decide (i = k)) as [->|Hne].
  - exists (placed pos th). rewrite lookup_insert_eq. split; [reflexivity|].
    rewrite placed_pos. apply list_lookup_middle. lia.
  - destruct (Hblue i) as (r & Hr & Hp); [lia|].
    exists r. rewrite lookup_insert_ne by congruence. split; [exact Hr|].
    rewrite lookup_app_l by lia. exact Hp.
Qed.

Lemma place_yellow_inv (k : nat) st st' :
  placement_inv e (n_robots_blue e) k st ->
  place_robot e true k st = Some st' ->
  placement_inv e (n_robots_blue e) (S k) st'.
Proof.
  destruct st as [[fr places] rng].
  intros (Hu & Hbox & Hsep & Hlen & Hball & Hblue & Hyel) H.
  apply place_robot_places in H; [|exact Hu].
  destruct H as (pos & th & rng' & -> & Hu' & Hb & Hfar).
  unfold placement_inv. cbn [Frame.ball Frame.robots_blue Frame.robots_yellow].
  unfold Point in *.
  split; [exact Hu'|]. split.
  { apply Forall_app. split; [exact Hbox|]. apply Forall_cons. split; [exact Hb|constructor]. }
  split; [apply separated_snoc; assumption|].
  split; [rewrite length_app, Hlen; simpl; lia|].
  split; [rewrite lookup_app_l by lia; exact Hball|].
  split.
  - intros i Hi. destruct (Hblue i Hi) as (r & Hr & Hp).
    exists r. split; [exact Hr|]. rewrite lookup_app_l by lia. exact Hp.
  - intros j Hj. destruct (decide (j = k)) as [->|Hne].
    + exists (placed pos th). rewrite lookup_insert_eq. split; [reflexivity|].
      rewrite placed_pos. apply list_lookup_middle. lia.
    + destruct (Hyel j) as (r & Hr & Hp); [lia|].
      exists r. rewrite lookup_insert_ne by congruence. split; [exact Hr|].
      rewrite lookup_app_l by lia. exact Hp.
Qed.

Lemma initial_positions_inv (rng : Rng) st :
  unit_draws rng ->
  initial_positions e rng = Some st ->
  placement_inv e (n_robots_blue e) (n_robots_yellow e) st.
Proof.
  intros Hu H. unfold initial_positions in H.
  destruct rng as [|u1 [|u2 rng]]; try discriminate.
  apply Forall_cons in Hu. destruct Hu as [H1 Hu].
  apply Forall_cons in Hu. destruct Hu as [H2 Hu].
  cbn [draw_pos mbind option_bind fst snd] in H.
  match type of H with
  | context [for_range (place_robot e false) _ ?st0] =>
      destruct (for_range (place_robot e false) (seq 0 (n_robots_blue e)) st0)
        as [st1|] eqn:Eb; [|discriminate];
      assert (H0 : placement_inv e 0 0 st0)
  end.
  { unfold placement_inv, kd_insert. cbn [Frame.ball Ball.x Ball.y app].
    split; [exact Hu|]. split.
    { apply Forall_cons. split; [apply drawn_in_box; assumption|constructor]. }
    split.
    { intros i j p q Hne Hi Hj.
      apply lookup_lt_Some in Hi. apply lookup_lt_Some in Hj. simpl in Hi, Hj. lia. }
    split; [reflexivity|]. split; [reflexivity|].
    split; intros i Hi; lia. }
  cbn [mbind option_bind] in H.
  apply (for_range_seq_inv (fun k => placement_inv e k 0)) in Eb;
    [|intros k x x' _; apply place_blue_inv|exact H0].
  apply (for_range_seq_inv (fun k => placement_inv e (n_robots_blue e) k)) in H;
    [exact H|intros k x x' _; apply place_yellow_inv|exact Eb].
Qed.

(** C8: every placement the sampler returns (for a field whose half length
    and half width are at least 0.1, and draws of [random()] in [0, 1)) lists
    the ball first, then the blue robots by id, then the yellow robots by id;
    every listed position lies in the box
    [-half_length + 0.1, half_length - 0.1] x [-half_width + 0.1, half_width - 0.1],
    and any two of them are at a distance of at least 0.1. *)
Theorem initial_positions_separated (rng rng' : Rng) (fr : Frame.t R) :
  unit_draws rng ->
  _get_initial_positions_frame e rng = Some (fr, rng') ->
  exists places,
    initial_positions e rng = Some (fr, places, rng') /\
    length places = (1 + n_robots_blue e + n_robots_yellow e)%nat /\
    places !! 0%nat = Some (Ball.x (Frame.ball fr), Ball.y (Frame.ball fr)) /\
    (forall i, (i < n_robots_blue e)%nat ->
       exists r, Frame.robots_blue fr !! i = Some r /\
                 places !! (1 + i)%nat = Some (Robot.x r, Robot.y r)) /\
    (forall j, (j < n_robots_yellow e)%nat ->
       exists r, Frame.robots_yellow fr !! j = Some r /\
                 places !! (1 + n_robots_blue e + j)%nat = Some (Robot.x r, Robot.y r)) /\
    Forall (in_box e) places /\
    separated places.
Proof.
  intros Hu H. unfold _get_initial_positions_frame in H.
  destruct (initial_positions e rng) as [[[fr0 places] rng0]|] eqn:E;
    [|discriminate].
  cbn [mbind option_bind] in H. injection H as <- <-.
  apply initial_positions_inv in E; [|exact Hu].
  destruct E as (_ & Hbox & Hsep & Hlen & Hball & Hblue & Hyel).
  exists places. repeat split; assumption.
Qed.

End Sampler.

End Reals.

(** ** The theorems at concrete inputs *)

Lemma real_frame_complete (strat : bool) (x : R) last cmds :
  frame_complete (real_env strat (real_frame x) last cmds) (real_frame x).
Proof.
  split; intros i Hi; simpl in Hi;
    (destruct i as [|i]; [eexists; reflexivity | lia]).
Qed.

Lemma env_running_ready (x : R) : reward_ready (env_running x) (real_frame x).
Proof.
  split; [reflexivity|]. intros _. split.
  - eexists. reflexivity.
  - eexists _, _. reflexivity.
Qed.

Lemma observation_length_witness :
  exists observation,
    _frame_to_observations (env_start true) = Some observation /\
    length observation = 16%nat /\
    length observation <> observation_space_shape.
Proof.
  destruct (observation_length (env_start true) (real_frame 0) eq_refl
              (real_frame_complete true 0 None None))
    as (ob & Ho & Hl & Hs & Hiff).
  exists ob. split; [exact Ho|]. split; [exact Hl|].
  intros H. apply Hiff in H. simpl in H. destruct H as [H _]. discriminate.
Defined.

Lemma goal_component_witness :
  exists e' rewards,
    _calculate_reward_and_done (env_running 1) = Some (e', (rewards, true)) /\
    r3 rewards = 1 /\ r0 rewards = 0 /\ r1 rewards = 0 /\ r2 rewards = 0.
Proof.
  destruct (goal_component (env_running 1) (real_frame 1) (env_running_ready 1))
    as (e' & rw & d & He & Hb & _ & _ & Hz & Hd).
  assert (H3 : r3 rw = 1) by (apply Hb; simpl; lra).
  assert (Hd' : d = true) by (apply Hd; rewrite H3; lra).
  subst d. exists e', rw. split; [exact He|]. split; [exact H3|].
  apply Hz. rewrite H3. lra.
Defined.

Lemma energy_component_witness :
  exists e' rewards,
    _calculate_reward_and_done (env_running 0) = Some (e', (rewards, false)) /\
    r2 rewards = - (60 / 40000).
Proof.
  destruct (energy_component (env_running 0) (real_frame 0) (env_running_ready 0))
    as (e' & rw & He & Hen & _).
  - simpl. lra.
  - simpl. lra.
  - exists e', rw. split; [exact He|].
    rewrite (Hen _ _ ltac:(discriminate) eq_refl). simpl.
    rewrite (Rabs_pos_eq 40) by lra. rewrite (Rabs_left (-20)) by lra. lra.
Defined.

Lemma _actions_to_v_wheels_bounds_witness :
  Rabs (fst (_actions_to_v_wheels (env_start true) (1 / 100, -1))) <= 60 /\
  Rabs (snd (_actions_to_v_wheels (env_start true) (1 / 100, -1))) <= 60 /\
  fst (_actions_to_v_wheels (env_start true) (1 / 100, -1)) = 0.
Proof.
  destruct (_actions_to_v_wheels_bounds (env_start true) (1 / 100, -1))
    as (Hl & Hr & Hdl & _ & _ & _ & _).
  - simpl. lra.
  - simpl. lra.
  - simpl. lra.
  - simpl. lra.
  - simpl in Hl, Hr.
    replace (12 / 10 / (2 / 100)) with 60 in Hl, Hr by field.
    split; [exact Hl|]. split; [exact Hr|].
    apply Hdl. simpl. unfold np_clip, np_minimum, np_maximum. simpl.
    settle_Rltb. rewrite Rabs_pos_eq by lra. lra.
Defined.

(** With [last_frame] unset, which is the state of an environment that was
    never reset, the energy component is 0 whatever was sent: here 60 rad/s on
    both wheels. *)
Lemma energy_zero_without_previous_frame :
  exists e' rewards c,
    _calculate_reward_and_done env_no_previous = Some (e', (rewards, false)) /\
    sent_commands env_no_previous = Some [c] /\
    r3 rewards = 0 /\
    r2 rewards = 0 /\
    r2 rewards <> - (Rabs (Robot.v_wheel0 c) + Rabs (Robot.v_wheel1 c)) / 40000.
Proof.
  unfold _calculate_reward_and_done, reward_components, gtb. simpl.
  settle_Rltb. simpl.
  eexists _, _, _. split; [reflexivity|]. split; [reflexivity|]. simpl.
  rewrite (Rabs_pos_eq 60) by lra. repeat split; lra.
Qed.

Lemma episode_totals_witness :
  exists e' v1 v2 i1 i2,
    run (env_start true) [(0, 0); (1, -1)] = Some (e', [v1; v2], [i1; i2]) /\
    reward_move i2 = 0 + r0 v1 + r0 v2 /\
    reward_ball_grad i2 = 0 + r1 v1 + r1 v2 /\
    reward_energy i2 = 0 + r2 v1 + r2 v2 /\
    reward_goal i2 = 0 + r3 v1 + r3 v2 /\
    Original_reward i2 =
      0 + weighted_sum v1 ori_weights + weighted_sum v2 ori_weights.
Proof.
  eassert (Hrun : run (env_start true) [(0, 0); (1, -1)] = Some (_, [_; _], [_; _])).
  { unfold run, env_start, real_env, real_frame.
    repeat (progress
      (rewrite ?step_unfold;
       unfold base_step, _get_commands, _frame_to_observations,
         _calculate_reward_and_done, reward_components, gtb,
         __move_reward, __ball_grad, __energy_penalty;
       simpl; rewrite ?lookup_insert_eq; simpl; settle_Rltb)).
    reflexivity. }
  eexists _, _, _, _, _. split; [exact Hrun|].
  destruct (episode_totals (env_start true) _ _ _ _ _ eq_refl Hrun eq_refl)
    as (_ & H0 & H1 & H2 & H3 & H4).
  repeat split; assumption.
Defined.

Lemma kd_dist_axis (x1 x2 y : R) : kd_dist (x1, y) (x2, y) = Rabs (x1 - x2).
Proof.
  unfold kd_dist, np_norm. simpl.
  replace ((x1 - x2) * (x1 - x2) + (y - y) * (y - y)) with (Rsqr (x1 - x2))
    by (unfold Rsqr; ring).
  apply sqrt_Rsqr_abs.
Qed.

Lemma sampler_draws_unit : unit_draws sampler_draws.
Proof. unfold unit_draws, sampler_draws. repeat constructor; lra. Qed.

Lemma initial_positions_separated_witness :
  exists fr rng' places,
    _get_initial_positions_frame (env_start true) sampler_draws = Some (fr, rng') /\
    initial_positions (env_start true) sampler_draws = Some (fr, places, rng') /\
    length places = 3%nat /\
    Forall (in_box (env_start true)) places /\
    separated places.
Proof.
  eassert (H : _get_initial_positions_frame (env_start true) sampler_draws
               = Some (_, _)).
  { assert (Hx1 : x_of (env_start true) (1 / 2) = 0).
    { unfold x_of, uniform, field_half_length, dec. simpl. field. }
    assert (Hy1 : y_of (env_start true) (1 / 2) = 0).
    { unfold y_of, uniform, field_half_width, dec. simpl. field. }
    assert (Hx2 : x_of (env_start true) 0 = -65 / 100).
    { unfold x_of, uniform, field_half_length, dec. simpl. field. }
    assert (Hx3 : x_of (env_start true) (3 / 4) = 325 / 1000).
    { unfold x_of, uniform, field_half_length, dec. simpl. field. }
    assert (D1 : kd_dist (0, 0) (0, 0) = 0).
    { rewrite kd_dist_axis. rewrite Rabs_pos_eq; lra. }
    assert (D2 : kd_dist (0, 0) (-65 / 100, 0) = 65 / 100).
    { rewrite kd_dist_axis. rewrite Rabs_pos_eq; lra. }
    assert (D3 : kd_dist (0, 0) (325 / 1000, 0) = 325 / 1000).
    { rewrite kd_dist_axis. rewrite Rabs_left; lra. }
    assert (D4 : kd_dist (-65 / 100, 0) (325 / 1000, 0) = 975 / 1000).
    { rewrite kd_dist_axis. rewrite Rabs_left; lra. }
    unfold _get_initial_positions_frame, initial_positions, sampler_draws.
    cbn -[x_of y_of kd_dist Rltb redraw].
    rewrite Hx1, Hy1.
    rewrite redraw_eq. cbn -[x_of y_of kd_dist Rltb redraw].
    rewrite D1. settle_Rltb. rewrite Hx2, Hy1.
    rewrite redraw_eq. cbn -[x_of y_of kd_dist Rltb redraw].
    rewrite D2. settle_Rltb. cbn -[x_of y_of kd_dist Rltb redraw].
    rewrite Hx3, Hy1.
    rewrite redraw_eq. cbn -[x_of y_of kd_dist Rltb redraw].
    rewrite D3, D4. settle_Rltb. cbn -[x_of y_of kd_dist Rltb redraw].
    reflexivity. }
  destruct (initial_positions_separated (env_start true)
              ltac:(simpl; lra) ltac:(simpl; lra) _ _ _ sampler_draws_unit H)
    as (places & Hp & Hlen & _ & _ & _ & Hbox & Hsep).
  eexists _, _, places. split; [exact H|]. split; [exact Hp|].
  split; [exact Hlen|]. split; [exact Hbox|exact Hsep].
Defined.

(** The state of [energy_zero_without_previous_frame] is the one a step on a
    freshly constructed environment computes its reward in: robot 0 is sent
    60 rad/s on both wheels and the energy entry of the reward is 0. *)
Lemma step_without_previous_frame :
  exists e' observation rewards info c cs,
    step env_fresh (1, 1) = Some (e', (observation, Stratified rewards, false, info)) /\
    last_frame e' = None /\
    sent_commands e' = Some (c :: cs) /\
    Robot.v_wheel0 c = 60 /\ Robot.v_wheel1 c = 60 /\
    r2 rewards = 0.
Proof.
  assert (Hw : wheel_speed env_fresh 1 = 12 / 10).
  { unfold wheel_speed, deadzone, np_clip, np_minimum, np_maximum,
      v_wheel_deadzone, dec. simpl. settle_Rltb. simpl. lra. }
  rewrite step_unfold.
  unfold base_step, _get_commands, _frame_to_observations,
    _calculate_reward_and_done, reward_components, gtb, env_fresh, real_frame.
  simpl. rewrite ?lookup_insert_eq. simpl. settle_Rltb. simpl.
  eexists _, _, _, _, _, _. split; [reflexivity|].
  split; [reflexivity|]. split; [reflexivity|]. simpl.
  fold (real_frame 0). fold env_fresh. rewrite Hw.
  repeat split; try field.
Qed.

(** * Further properties of the environment *)

(** ** The actuator mapper beyond its bounds *)

Section Actuator.
Context {ext : Collaborators R}.

(** Open every comparison of a wheel-speed computation and leave linear
    arithmetic. *)
Ltac open_wheel :=
  unfold wheel_speed, deadzone, np_clip, np_minimum, np_maximum,
    v_wheel_deadzone, dec; simpl; unfold Rltb;
  repeat match goal with
         | |- context [Rlt_dec ?a ?b] =>
             lazymatch a with
             | context [Rlt_dec] => fail
             | _ => lazymatch b with
                    | context [Rlt_dec] => fail
                    | _ => destruct (Rlt_dec a b); simpl
                    end
             end
         end.

Lemma limited_odd (m x : R) :
  0 <= m ->
  deadzone (np_clip (- x) (- m) m) = - deadzone (np_clip x (- m) m).
Proof. intros Hm. open_wheel; lra. Qed.

Lemma limited_monotone (m x y : R) :
  0 <= m -> x <= y ->
  deadzone (np_clip x (- m) m) <= deadzone (np_clip y (- m) m).
Proof. intros Hm Hxy. open_wheel; lra. Qed.

Lemma limited_identity (m x : R) :
  - m <= x <= m -> 5 / 100 <= Rabs x ->
  deadzone (np_clip x (- m) m) = x.
Proof.
  intros Hx Ha. revert Ha. unfold Rabs. destruct (Rcase_abs x); intros Ha;
    open_wheel; lra.
Qed.

Lemma limited_above (m x : R) :
  0 <= m -> m <= x ->
  deadzone (np_clip x (- m) m) = deadzone (np_clip m (- m) m).
Proof. intros Hm Hx. open_wheel; lra. Qed.

Lemma limited_below (m x : R) :
  0 <= m -> x <= - m ->
  deadzone (np_clip x (- m) m) = deadzone (np_clip (- m) (- m) m).
Proof. intros Hm Hx. open_wheel; lra. Qed.

Lemma limited_gap (m x : R) :
  deadzone (np_clip x (- m) m) = 0 \/
  5 / 100 <= Rabs (deadzone (np_clip x (- m) m)).
Proof.
  unfold Rabs. destruct (Rcase_abs _) as [Hn|Hp]; revert Hn || revert Hp;
    open_wheel; intros; lra.
Qed.

(** X1: outside the dead-zone and inside the action bounds the mapper is linear:
    the wheel speed is the action times max_v over the wheel radius. *)
Theorem _actions_to_v_wheels_linear (e : Env) (acts : R * R) :
  0 <= max_v e ->
  -1 <= fst acts <= 1 -> -1 <= snd acts <= 1 ->
  5 / 100 <= Rabs (fst acts * max_v e) ->
  5 / 100 <= Rabs (snd acts * max_v e) ->
  _actions_to_v_wheels e acts =
    (fst acts * max_v e / Field.rbt_wheel_radius (field e),
     snd acts * max_v e / Field.rbt_wheel_radius (field e)).
Proof.
  intros Hm H1 H2 Ha Hb. unfold _actions_to_v_wheels, wheel_speed. simpl.
  rewrite !limited_identity; try assumption; try reflexivity; nra.
Qed.

(** X2: actions beyond the bounds saturate: an entry of at least 1 gives the
    wheel speed of the entry 1, an entry of at most -1 that of -1. *)
Theorem _actions_to_v_wheels_saturates (e : Env) (acts : R * R) :
  0 <= max_v e ->
  (1 <= fst acts ->
   fst (_actions_to_v_wheels e acts) = fst (_actions_to_v_wheels e (1, snd acts))) /\
  (fst acts <= -1 ->
   fst (_actions_to_v_wheels e acts) = fst (_actions_to_v_wheels e (-1, snd acts))) /\
  (1 <= snd acts ->
   snd (_actions_to_v_wheels e acts) = snd (_actions_to_v_wheels e (fst acts, 1))) /\
  (snd acts <= -1 ->
   snd (_actions_to_v_wheels e acts) = snd (_actions_to_v_wheels e (fst acts, -1))).
Proof.
  intros Hm. unfold _actions_to_v_wheels, wheel_speed. simpl.
  repeat split; intros Ha; f_equal.
  - rewrite (limited_above (max_v e) (fst acts * max_v e)) by nra.
    rewrite (limited_above (max_v e) (1 * max_v e)) by nra. reflexivity.
  - rewrite (limited_below (max_v e) (fst acts * max_v e)) by nra.
    rewrite (limited_below (max_v e) (-1 * max_v e)) by nra. reflexivity.
  - rewrite (limited_above (max_v e) (snd acts * max_v e)) by nra.
    rewrite (limited_above (max_v e) (1 * max_v e)) by nra. reflexivity.
  - rewrite (limited_below (max_v e) (snd acts * max_v e)) by nra.
    rewrite (limited_below (max_v e) (-1 * max_v e)) by nra. reflexivity.
Qed.

(** X3: the mapper is odd: the opposite action gives the opposite wheel speeds. *)
Theorem _actions_to_v_wheels_odd (e : Env) (acts : R * R) :
  0 <= max_v e ->
  _actions_to_v_wheels e (- fst acts, - snd acts) =
    (- fst (_actions_to_v_wheels e acts), - snd (_actions_to_v_wheels e acts)).
Proof.
  intros Hm. unfold _actions_to_v_wheels, wheel_speed. simpl.
  replace (- fst acts * max_v e) with (- (fst acts * max_v e)) by ring.
  replace (- snd acts * max_v e) with (- (snd acts * max_v e)) by ring.
  rewrite !limited_odd by exact Hm. f_equal; unfold Rdiv; ring.
Qed.

(** X4: the mapper never returns a small non-zero speed: a wheel speed is 0 or
    at least 0.05 / rbt_wheel_radius in absolute value. *)
Theorem _actions_to_v_wheels_gap (e : Env) (acts : R * R) :
  0 < Field.rbt_wheel_radius (field e) ->
  let least := 5 / 100 / Field.rbt_wheel_radius (field e) in
  (fst (_actions_to_v_wheels e acts) = 0 \/
   least <= Rabs (fst (_actions_to_v_wheels e acts))) /\
  (snd (_actions_to_v_wheels e acts) = 0 \/
   least <= Rabs (snd (_actions_to_v_wheels e acts))).
Proof.
  intros Hr. unfold _actions_to_v_wheels, wheel_speed. simpl.
  assert (Hinv : 0 < / Field.rbt_wheel_radius (field e))
    by (apply Rinv_0_lt_compat; exact Hr).
  assert (Hgap : forall x,
             deadzone (np_clip x (- max_v e) (max_v e)) /
               Field.rbt_wheel_radius (field e) = 0 \/
             5 / 100 / Field.rbt_wheel_radius (field e) <=
               Rabs (deadzone (np_clip x (- max_v e) (max_v e)) /
                     Field.rbt_wheel_radius (field e))).
  { intros x. destruct (limited_gap (max_v e) x) as [-> | Hg].
    - left. lra.
    - right. unfold Rdiv. rewrite Rabs_mult.
      rewrite (Rabs_pos_eq (/ _)) by lra.
      apply Rmult_le_compat_r; [lra|exact Hg]. }
  split; apply Hgap.
Qed.

(** X5: the mapper is monotone in each entry of the action. *)
Theorem _actions_to_v_wheels_monotone (e : Env) (a a' b b' : R) :
  0 <= max_v e -> 0 < Field.rbt_wheel_radius (field e) ->
  a <= a' -> b <= b' ->
  fst (_actions_to_v_wheels e (a, b)) <= fst (_actions_to_v_wheels e (a', b')) /\
  snd (_actions_to_v_wheels e (a, b)) <= snd (_actions_to_v_wheels e (a', b')).
Proof.
  intros Hm Hr Ha Hb. unfold _actions_to_v_wheels, wheel_speed. simpl.
  assert (Hinv : 0 < / Field.rbt_wheel_radius (field e))
    by (apply Rinv_0_lt_compat; exact Hr).
  split; unfold Rdiv; apply Rmult_le_compat_r; try lra;
    apply limited_monotone; try exact Hm; nra.
Qed.

End Actuator.

(** ** The command loop *)

Section Commands.
Context {F : Type} {num : Num F} {ext : Collaborators F}.

Lemma blue_command_inv (e : Env) (acts : F * F) (k : nat) st st' :
  (1 <= k)%nat -> (k < n_robots_blue e)%nat ->
  commands_inv e acts k 0 st ->
  blue_command e k st = Some st' ->
  commands_inv e acts (S k) 0 st'.
Proof.
  destruct st as [[ous amap] cmds].
  intros Hk Hkb (Hlen & Hsam & Hnot & Ha0 & Hab & Han & Hcl & Hc0 & Hcb & Hcy) H.
  unfold blue_command in H.
  assert (Hou : ous !! k = ou_actions e !! k).
  { apply Hnot. unfold was_sampled. lia. }
  destruct (ous !! k) as [ou|] eqn:Eo; simpl in H; [|discriminate].
  destruct (ou_sample ou) as [a ou'] eqn:Es. injection H as <-.
  assert (Ha : a = sampled_action ou) by (unfold sampled_action; rewrite Es; reflexivity).
  assert (Hou' : ou' = advanced ou) by (unfold advanced; rewrite Es; reflexivity).
  unfold commands_inv. repeat split.
  - rewrite length_insert. exact Hlen.
  - intros i Hi. destruct (decide (i = k)) as [->|Hne].
    + rewrite list_lookup_insert_eq by (apply lookup_lt_Some in Eo; exact Eo).
      rewrite <- Hou. simpl. congruence.
    + rewrite list_lookup_insert_ne by congruence. apply Hsam.
      unfold was_sampled in *. lia.
  - intros i Hi. rewrite list_lookup_insert_ne.
    + apply Hnot. unfold was_sampled in *. lia.
    + intros ->. apply Hi. unfold was_sampled. lia.
  - rewrite lookup_insert_ne by lia. exact Ha0.
  - intros i Hi. destruct (decide (i = k)) as [->|Hne].
    + rewrite lookup_insert_eq, <- Hou. simpl. congruence.
    + rewrite lookup_insert_ne by congruence. apply Hab. lia.
  - intros i H1 Hi. rewrite lookup_insert_ne by lia. apply Han; lia.
  - rewrite length_app, Hcl. simpl. lia.
  - rewrite lookup_app_l by lia. exact Hc0.
  - intros i Hi. destruct (decide (i = k)) as [->|Hne].
    + exists ou. split; [congruence|]. rewrite Ha.
      apply list_lookup_middle. lia.
    + destruct (Hcb i) as (ou1 & H1 & H2); [lia|].
      exists ou1. split; [exact H1|]. rewrite lookup_app_l by lia. exact H2.
  - intros j Hj. lia.
Qed.

Lemma yellow_command_inv (e : Env) (acts : F * F) (k : nat) st st' :
  commands_inv e acts (1 + (n_robots_blue e - 1)) k st ->
  yellow_command e k st = Some st' ->
  commands_inv e acts (1 + (n_robots_blue e - 1)) (S k) st'.
Proof.
  destruct st as [[ous amap] cmds].
  intros (Hlen & Hsam & Hnot & Ha0 & Hab & Han & Hcl & Hc0 & Hcb & Hcy) H.
  unfold yellow_command in H.
  assert (Hou : ous !! (n_robots_blue e + k)%nat
                = ou_actions e !! (n_robots_blue e + k)%nat).
  { apply Hnot. unfold was_sampled. lia. }
  destruct (ous !! (n_robots_blue e + k)%nat) as [ou|] eqn:Eo; simpl in H;
    [|discriminate].
  destruct (ou_sample ou) as [a ou'] eqn:Es. injection H as <-.
  assert (Ha : a = sampled_action ou) by (unfold sampled_action; rewrite Es; reflexivity).
  assert (Hou' : ou' = advanced ou) by (unfold advanced; rewrite Es; reflexivity).
  unfold commands_inv. repeat split.
  - rewrite length_insert. exact Hlen.
  - intros i Hi. destruct (decide (i = (n_robots_blue e + k)%nat)) as [->|Hne].
    + rewrite list_lookup_insert_eq by (apply lookup_lt_Some in Eo; exact Eo).
      rewrite <- Hou. simpl. congruence.
    + rewrite list_lookup_insert_ne by congruence. apply Hsam.
      unfold was_sampled in *. lia.
  - intros i Hi. rewrite list_lookup_insert_ne.
    + apply Hnot. unfold was_sampled in *. lia.
    + intros <-. apply Hi. unfold was_sampled. lia.
  - exact Ha0.
  - exact Hab.
  - exact Han.
  - rewrite length_app, Hcl. simpl. lia.
  - rewrite lookup_app_l by lia. exact Hc0.
  - intros i Hi. destruct (Hcb i Hi) as (ou1 & H1 & H2).
    exists ou1. split; [exact H1|]. rewrite lookup_app_l by lia. exact H2.
  - intros j Hj. destruct (decide (j = k)) as [->|Hne].
    + exists ou. split; [congruence|]. rewrite Ha.
      apply list_lookup_middle. lia.
    + destruct (Hcy j) as (ou1 & H1 & H2); [lia|].
      exists ou1. split; [exact H1|]. rewrite lookup_app_l by lia. exact H2.
Qed.

Lemma _get_commands_stages (e e1 : Env) (acts : F * F) commands :
  _get_commands e acts = Some (e1, commands) ->
  exists amap,
    actions e1 = Some amap /\
    commands_inv e acts (1 + (n_robots_blue e - 1)) (n_robots_yellow e)
                 (ou_actions e1, amap, commands).
Proof.
  unfold _get_commands. intros H.
  match type of H with
  | context [for_range (blue_command e) ?ids ?st0] =>
      destruct (for_range (blue_command e) ids st0) as [st1|] eqn:Eb;
        simpl in H; [|discriminate];
      assert (H0 : commands_inv e acts 1 0 st0)
  end.
  { unfold commands_inv, was_sampled. repeat split; try reflexivity.
    - intros i Hi. lia.
    - intros i Hi. lia.
    - intros i H1 H2. rewrite lookup_insert_ne by lia. apply lookup_empty.
    - intros i Hi. lia.
    - intros j Hj. lia. }
  apply (for_range_seq_inv (fun k => commands_inv e acts k 0)) in Eb;
    [|intros k x x' Hk; apply blue_command_inv; lia|exact H0].
  destruct (for_range (yellow_command e) _ st1) as [[[ous amap] cmds]|] eqn:Ey;
    simpl in H; [|discriminate].
  injection H as <- <-. simpl.
  apply (for_range_seq_inv
           (fun k => commands_inv e acts (1 + (n_robots_blue e - 1)) k)) in Ey;
    [|intros k x x' Hk; apply yellow_command_inv|exact Eb].
  exists amap. split; [reflexivity|exact Ey].
Qed.

Lemma _get_commands_enough (e : Env) (acts : F * F) :
  (forall i, (1 <= i < n_robots_blue e)%nat \/
             (n_robots_blue e <= i < n_robots_blue e + n_robots_yellow e)%nat ->
             (i < length (ou_actions e))%nat) ->
  is_Some (_get_commands e acts).
Proof.
  intros Hlen. unfold _get_commands.
  set (P := fun st : CmdState => length (st.1.1) = length (ou_actions e)).
  match goal with
  | |- context [for_range (blue_command e) ?ids ?st0] =>
      destruct (for_range_total P (blue_command e) ids) with (s := st0)
        as (st1 & -> & H1)
  end.
  { intros i [[ous amap] cmds] Hi Hl. unfold P in Hl. simpl in Hl.
    apply in_seq in Hi. unfold blue_command.
    destruct (lookup_lt_is_Some_2 ous i) as [ou Hou];
      [rewrite Hl; apply Hlen; lia|].
    rewrite Hou. simpl. destruct (ou_sample ou) as [a ou'].
    eexists. split; [reflexivity|]. unfold P. simpl.
    rewrite length_insert. exact Hl. }
  { reflexivity. }
  simpl.
  destruct (for_range_total P (yellow_command e) (seq 0 (n_robots_yellow e)))
    with (s := st1) as ([[ous amap] cmds] & -> & H2); [|exact H1|].
  { intros i [[ous amap] cmds] Hi Hl. unfold P in Hl. simpl in Hl.
    apply in_seq in Hi. unfold yellow_command.
    destruct (lookup_lt_is_Some_2 ous (n_robots_blue e + i)) as [ou Hou];
      [rewrite Hl; apply Hlen; lia|].
    rewrite Hou. simpl. destruct (ou_sample ou) as [a ou'].
    eexists. split; [reflexivity|]. unfold P. simpl.
    rewrite length_insert. exact Hl. }
  simpl. eauto.
Qed.

(** X6: [_get_commands] returns one command per robot, in the order blue 0 (the
    learning robot, from the given action), the blue team-mates by id, the
    yellow robots by id; the command of every other robot comes from one
    sample of that robot's own noise source.  With no blue robot at all the
    command of blue robot 0 is still the first of the list. *)
Theorem _get_commands_layout (e e1 : Env) (acts : F * F) commands :
  _get_commands e acts = Some (e1, commands) ->
  let nb := n_robots_blue e in
  length commands = (1 + (nb - 1) + n_robots_yellow e)%nat /\
  commands !! 0%nat = Some (command false 0 (_actions_to_v_wheels e acts)) /\
  (forall i, (1 <= i < nb)%nat ->
     exists ou, ou_actions e !! i = Some ou /\
       commands !! i =
         Some (command false i (_actions_to_v_wheels e (sampled_action ou)))) /\
  (forall j, (j < n_robots_yellow e)%nat ->
     exists ou, ou_actions e !! (nb + j)%nat = Some ou /\
       commands !! (1 + (nb - 1) + j)%nat =
         Some (command true j (_actions_to_v_wheels e (sampled_action ou)))).
Proof.
  intros H. apply _get_commands_stages in H.
  destruct H as (amap & _ & _ & _ & _ & _ & _ & _ & Hcl & Hc0 & Hcb & Hcy).
  simpl. split; [exact Hcl|]. split; [exact Hc0|]. split; [|exact Hcy].
  intros i Hi. apply Hcb. lia.
Qed.

(** X7: [_get_commands] calls [sample()] exactly once on the noise source of
    every blue team-mate and of every yellow robot, and on no other: the
    list of sources keeps its length, and when there is a blue robot the
    source at index 0, that of the learning robot, is never sampled. *)
Theorem _get_commands_sources (e e1 : Env) (acts : F * F) commands :
  _get_commands e acts = Some (e1, commands) ->
  let nb := n_robots_blue e in
  let sampled i :=
    (1 <= i < nb)%nat \/ (nb <= i < nb + n_robots_yellow e)%nat in
  length (ou_actions e1) = length (ou_actions e) /\
  (forall i, sampled i -> ou_actions e1 !! i = advanced <$> ou_actions e !! i) /\
  (forall i, ~ sampled i -> ou_actions e1 !! i = ou_actions e !! i) /\
  ((1 <= nb)%nat -> ou_actions e1 !! 0%nat = ou_actions e !! 0%nat).
Proof.
  intros H. apply _get_commands_stages in H.
  destruct H as (amap & _ & Hlen & Hsam & Hnot & _). simpl.
  split; [exact Hlen|]. split; [|split].
  - intros i Hi. apply Hsam. unfold was_sampled. lia.
  - intros i Hi. apply Hnot. unfold was_sampled. intros Hs. apply Hi. lia.
  - intros Hb. apply Hnot. unfold was_sampled. lia.
Qed.

(** X8: after [_get_commands] the dict [self.actions] holds the given action
    under key 0 and the sampled action of every blue team-mate under its
    id; the actions of the yellow robots are not recorded. *)
Theorem _get_commands_actions (e e1 : Env) (acts : F * F) commands :
  _get_commands e acts = Some (e1, commands) ->
  exists amap,
    actions e1 = Some amap /\
    amap !! 0%nat = Some acts /\
    (forall i, (1 <= i < n_robots_blue e)%nat ->
       amap !! i = sampled_action <$> ou_actions e !! i) /\
    (forall i, (1 <= i)%nat -> (n_robots_blue e <= i)%nat -> amap !! i = None).
Proof.
  intros H. apply _get_commands_stages in H.
  destruct H as (amap & Ha & _ & _ & _ & Ha0 & Hab & Han & _).
  exists amap. split; [exact Ha|]. split; [exact Ha0|]. split.
  - intros i Hi. apply Hab. lia.
  - intros i H1 Hi. apply Han; lia.
Qed.

(** X9: [_get_commands] raises (an index error on [ou_actions]) exactly when a
    blue team-mate or a yellow robot has no noise source. *)
Theorem _get_commands_raises (e : Env) (acts : F * F) :
  _get_commands e acts = None <->
  exists i,
    ((1 <= i < n_robots_blue e)%nat \/
     (n_robots_blue e <= i < n_robots_blue e + n_robots_yellow e)%nat) /\
    (length (ou_actions e) <= i)%nat.
Proof.
  split.
  - intros Hnone.
    destruct (decide (length (ou_actions e)
                      < n_robots_blue e + n_robots_yellow e)%nat) as [Hlt|Hge].
    + destruct (decide (length (ou_actions e) < n_robots_blue e)%nat) as [Hb|Hb].
      * destruct (decide (2 <= n_robots_blue e)%nat) as [H2|H2].
        { exists (n_robots_blue e - 1)%nat. lia. }
        destruct (decide (1 <= n_robots_yellow e)%nat) as [Hy|Hy].
        { exists (n_robots_blue e + n_robots_yellow e - 1)%nat. lia. }
        exfalso. destruct (_get_commands_enough e acts) as [x Hx]; [intros i; lia|].
        congruence.
      * exists (n_robots_blue e + n_robots_yellow e - 1)%nat. lia.
    + exfalso. destruct (_get_commands_enough e acts) as [x Hx]; [intros i; lia|].
      congruence.
  - intros (i & Hi & Hlen).
    destruct (_get_commands e acts) as [[e1 cmds]|] eqn:E; [|reflexivity].
    exfalso. apply _get_commands_stages in E.
    destruct E as (amap & _ & _ & _ & _ & _ & _ & _ & _ & _ & Hcb & Hcy).
    destruct Hi as [Hi|Hi].
    + destruct (Hcb i) as (ou & Hou & _); [lia|].
      apply lookup_lt_Some in Hou. lia.
    + destruct (Hcy (i - n_robots_blue e)%nat) as (ou & Hou & _); [lia|].
      replace (n_robots_blue e + (i - n_robots_blue e))%nat with i in Hou by lia.
      apply lookup_lt_Some in Hou. lia.
Qed.

End Commands.

(** ** The layout of an observation *)

Section Observations.
Context {F : Type} {num : Num F} {npx : NumpyExt F} {ext : Collaborators F}.

Lemma observe_robots_lookup (entries : Robot.t F -> list F) (w : nat) :
  (forall r, length (entries r) = w) ->
  forall robots ids observation out,
    observe_robots entries robots ids observation = Some out ->
    (forall k, (k < length observation)%nat -> out !! k = observation !! k) /\
    (forall p i, ids !! p = Some i ->
       exists r, robots !! i = Some r /\
         forall k, (k < w)%nat ->
           out !! (length observation + w * p + k)%nat = entries r !! k).
Proof.
  intros Hw robots ids. induction ids as [|i ids IH]; intros obs out H; simpl in H.
  - injection H as <-. split; [reflexivity|]. intros p i Hp. discriminate.
  - destruct (robots !! i) as [r|] eqn:Er; simpl in H; [|discriminate].
    apply IH in H. destruct H as [Hpre Hent].
    rewrite length_app, Hw in Hpre, Hent. split.
    + intros k Hk. rewrite Hpre by lia. apply lookup_app_l. exact Hk.
    + intros [|p] j Hp; simpl in Hp.
      * injection Hp as <-. exists r. split; [exact Er|]. intros k Hk.
        replace (length obs + w * 0 + k)%nat with (length obs + k)%nat by lia.
        rewrite Hpre by lia. rewrite lookup_app_r by lia.
        f_equal. lia.
      * destruct (Hent p j Hp) as (r' & Hr' & Hk'). exists r'.
        split; [exact Hr'|]. intros k Hk. rewrite <- (Hk' k Hk).
        f_equal. lia.
Qed.


(** X11: the encoder returns an observation exactly when there is a current frame
    that holds every robot of the environment; a missing robot is a key
    error. *)
Theorem _frame_to_observations_defined (e : Env) :
  is_Some (_frame_to_observations e) <->
  exists cur, frame e = Some cur /\ frame_complete e cur.
Proof.
  split.
  - intros [ob H]. destruct (frame e) as [cur|] eqn:Hcur.
    + exists cur. split; [reflexivity|].
      unfold _frame_to_observations in H. rewrite Hcur in H. simpl in H.
      match type of H with
      | context [observe_robots blue_observation ?m ?ids ?o] =>
          destruct (observe_robots blue_observation m ids o) as [o1|] eqn:Eb;
            simpl in H; [|discriminate]
      end.
      destruct (observe_robots yellow_observation _ _ o1) as [oy|] eqn:Ey;
        simpl in H; [|discriminate].
      apply (observe_robots_lookup blue_observation 7) in Eb; [|reflexivity].
      apply (observe_robots_lookup yellow_observation 5) in Ey; [|reflexivity].
      split; intros i Hi.
      * destruct (proj2 Eb i i) as (r & Hr & _); [apply lookup_seq; lia|]. eauto.
      * destruct (proj2 Ey i i) as (r & Hr & _); [apply lookup_seq; lia|]. eauto.
    + unfold _frame_to_observations in H. rewrite Hcur in H. discriminate.
  - intros (cur & Hcur & Hc).
    destruct (_frame_to_observations_complete e cur Hcur Hc) as (ob & -> & _).
    eauto.
Qed.

End Observations.

(** ** The shaped reward components *)

Section Shaping.
Context {ext : Collaborators R}.

Lemma np_norm_nonneg (a b : R) : 0 <= np_norm a b.
Proof. unfold np_norm. simpl. apply sqrt_pos. Qed.

Lemma np_norm_sqr (a b : R) : np_norm a b * np_norm a b = a * a + b * b.
Proof. unfold np_norm. simpl. apply sqrt_sqrt. nra. Qed.

Lemma np_norm_zero (a b : R) : np_norm a b = 0 -> a = 0 /\ b = 0.
Proof. intros H. pose proof (np_norm_sqr a b) as Hs. rewrite H in Hs. nra. Qed.

(** Cauchy-Schwarz in the plane. *)
Lemma np_dot_le_norms (a b c d : R) :
  Rabs (np_dot a b c d) <= np_norm a b * np_norm c d.
Proof.
  pose proof (np_norm_nonneg a b) as Ha. pose proof (np_norm_nonneg c d) as Hc.
  pose proof (np_norm_sqr a b) as Sa. pose proof (np_norm_sqr c d) as Sc.
  unfold np_dot. simpl.
  set (n := np_norm a b) in *. set (m := np_norm c d) in *.
  assert (Hsq : (a * c + b * d) * (a * c + b * d) <= (n * m) * (n * m)).
  { replace ((n * m) * (n * m)) with ((n * n) * (m * m)) by ring.
    rewrite Sa, Sc. pose proof (Rle_0_sqr (a * d - b * c)) as Hd.
    unfold Rsqr in Hd. lra. }
  assert (Hnm : 0 <= n * m) by (apply Rmult_le_pos; assumption).
  apply Rsqr_le_abs_0 in Hsq. rewrite (Rabs_pos_eq (n * m)) in Hsq by exact Hnm.
  exact Hsq.
Qed.

(** The triangle inequality in the plane. *)
Lemma np_norm_triangle (a b c d : R) :
  np_norm (a + c) (b + d) <= np_norm a b + np_norm c d.
Proof.
  pose proof (np_norm_nonneg a b) as Ha. pose proof (np_norm_nonneg c d) as Hc.
  pose proof (np_norm_nonneg (a + c) (b + d)) as Hs.
  pose proof (np_norm_sqr a b) as Sa. pose proof (np_norm_sqr c d) as Sc.
  pose proof (np_norm_sqr (a + c) (b + d)) as Ss.
  pose proof (np_dot_le_norms a b c d) as Hcs.
  change (Rabs (a * c + b * d) <= np_norm a b * np_norm c d) in Hcs.
  pose proof (Rle_abs (a * c + b * d)) as Hle.
  set (n := np_norm a b) in *. set (m := np_norm c d) in *.
  set (s := np_norm (a + c) (b + d)) in *.
  assert (Hsq : Rsqr s <= Rsqr (n + m)) by (unfold Rsqr; nra).
  apply Rsqr_le_abs_0 in Hsq.
  rewrite (Rabs_pos_eq s), (Rabs_pos_eq (n + m)) in Hsq by lra. exact Hsq.
Qed.

Lemma np_norm_difference (a b c d : R) :
  Rabs (np_norm a b - np_norm c d) <= np_norm (a - c) (b - d).
Proof.
  pose proof (np_norm_triangle (a - c) (b - d) c d) as H1.
  pose proof (np_norm_triangle (c - a) (d - b) a b) as H2.
  replace (a - c + c) with a in H1 by ring. replace (b - d + d) with b in H1 by ring.
  replace (c - a + a) with c in H2 by ring. replace (d - b + b) with d in H2 by ring.
  assert (Hsym : np_norm (c - a) (d - b) = np_norm (a - c) (b - d)).
  { unfold np_norm. simpl. f_equal. ring. }
  rewrite Hsym in H2. apply Rabs_le. lra.
Qed.

(** X12: the move component never exceeds the robot's speed over 120, whatever
    the direction of the ball, as long as the robot is not on the ball. *)
Theorem __move_reward_bound (e : Env) (cur : Frame.t R) (rbt : Robot.t R) :
  frame e = Some cur ->
  Frame.robots_blue cur !! 0%nat = Some rbt ->
  (Ball.x (Frame.ball cur), Ball.y (Frame.ball cur)) <> (Robot.x rbt, Robot.y rbt) ->
  exists move,
    __move_reward e = Some move /\
    Rabs move <= np_norm (Robot.v_x rbt) (Robot.v_y rbt) / 120.
Proof.
  intros Hc Hr Hne. unfold __move_reward. rewrite Hc.
  cbn -[np_norm np_dot]. rewrite Hr. cbn -[np_norm np_dot].
  eexists. split; [reflexivity|].
  set (dx := Ball.x (Frame.ball cur) - Robot.x rbt).
  set (dy := Ball.y (Frame.ball cur) - Robot.y rbt).
  assert (Hn : 0 < np_norm dx dy).
  { destruct (Rle_lt_or_eq_dec _ _ (np_norm_nonneg dx dy)) as [Hlt|Heq];
      [exact Hlt|].
    exfalso. symmetry in Heq. apply np_norm_zero in Heq. destruct Heq as [H1 H2].
    apply Hne. unfold dx, dy in *. f_equal; lra. }
  replace (np_dot (dx / np_norm dx dy) (dy / np_norm dx dy)
                  (Robot.v_x rbt) (Robot.v_y rbt))
    with (np_dot dx dy (Robot.v_x rbt) (Robot.v_y rbt) / np_norm dx dy)
    by (unfold np_dot; cbn [add mul R_num]; field; lra).
  unfold Rdiv at 1. rewrite Rabs_mult. rewrite (Rabs_pos_eq (/ 120)) by lra.
  apply Rmult_le_compat_r; [lra|].
  unfold Rdiv. rewrite Rabs_mult.
  rewrite (Rabs_pos_eq (/ np_norm dx dy))
    by (left; apply Rinv_0_lt_compat; exact Hn).
  pose proof (np_dot_le_norms dx dy (Robot.v_x rbt) (Robot.v_y rbt)) as Hcs.
  apply (Rmult_le_reg_r (np_norm dx dy)); [exact Hn|].
  rewrite Rmult_assoc, Rinv_l by lra. lra.
Qed.

(** X13: the gradient component is at most the distance the ball travelled
    between the two frames, over 0.75, in absolute value; it is 0 when the
    ball did not move. *)
Theorem __ball_grad_bound (e : Env) (last cur : Frame.t R) :
  last_frame e = Some last ->
  frame e = Some cur ->
  exists grad,
    __ball_grad e = Some grad /\
    Rabs grad <=
      np_norm (Ball.x (Frame.ball cur) - Ball.x (Frame.ball last))
              (Ball.y (Frame.ball cur) - Ball.y (Frame.ball last)) / (75 / 100) /\
    (Ball.x (Frame.ball cur) = Ball.x (Frame.ball last) ->
     Ball.y (Frame.ball cur) = Ball.y (Frame.ball last) -> grad = 0).
Proof.
  intros Hl Hc. unfold __ball_grad. rewrite Hl, Hc. simpl.
  eexists. split; [reflexivity|]. split.
  - unfold grad_scale, dec. simpl.
    unfold Rdiv at 1. rewrite Rabs_mult.
    rewrite (Rabs_pos_eq (/ (75 / 100)))
      by (left; apply Rinv_0_lt_compat; lra).
    apply Rmult_le_compat_r; [left; apply Rinv_0_lt_compat; lra|].
    match goal with
    | |- Rabs (sqrt ?A - sqrt ?B) <= _ => idtac
    end.
    pose proof (np_norm_difference
                  (Field.length (field e) / 2 - Ball.x (Frame.ball last))
                  (0 - Ball.y (Frame.ball last))
                  (Field.length (field e) / 2 - Ball.x (Frame.ball cur))
                  (0 - Ball.y (Frame.ball cur))) as H.
    unfold np_norm in *. simpl in *.
    eapply Rle_trans; [exact H|]. right. f_equal. ring.
  - intros Hx Hy. rewrite Hx, Hy. unfold Rdiv. ring.
Qed.

End Shaping.

(** ** What one step is made of *)

Section StepParts.
Context {F : Type} {num : Num F} {npx : NumpyExt F} {ext : Collaborators F}.

Lemma _get_commands_rest (e e1 : Env) acts commands :
  _get_commands e acts = Some (e1, commands) ->
  last_frame e1 = last_frame e /\
  sent_commands e1 = sent_commands e /\
  steps e1 = steps e.
Proof.
  unfold _get_commands. intros H.
  destruct (for_range (blue_command e) _ _) as [st|]; simpl in H; [|discriminate].
  destruct (for_range (yellow_command e) _ _) as [[[ous amap] cmds]|];
    simpl in H; [|discriminate].
  injection H as <- <-. simpl. repeat split.
Qed.

Lemma _frame_to_observations_length (e : Env) observation :
  _frame_to_observations e = Some observation ->
  length observation = (4 + 7 * n_robots_blue e + 5 * n_robots_yellow e)%nat.
Proof.
  unfold _frame_to_observations. intros H.
  destruct (frame e) as [cur|]; simpl in H; [|discriminate].
  match type of H with
  | context [observe_robots blue_observation ?m ?ids ?o] =>
      destruct (observe_robots blue_observation m ids o) as [ob|] eqn:Eb;
        simpl in H; [|discriminate]
  end.
  destruct (observe_robots yellow_observation _ _ ob) as [oy|] eqn:Ey;
    simpl in H; [|discriminate].
  injection H as <-.
  apply (observe_robots_length blue_observation 7) in Eb; [|reflexivity].
  apply (observe_robots_length yellow_observation 5) in Ey; [|reflexivity].
  rewrite length_seq in Eb, Ey. simpl in Eb. rewrite length_map. lia.
Qed.

(** The state in which a step encodes its observation and computes its
    reward. *)
Lemma step_parts (e e' : Env) (action : F * F) observation reward done info :
  step e action = Some (e', (observation, reward, done, info)) ->
  exists e1 commands move grad energy goal,
    _get_commands e action = Some (e1, commands) /\
    let sim := rsim_send_commands (rsim e) commands in
    let e2 :=
      mkEnv (stratified e) (n_robots_blue e) (n_robots_yellow e) (field e) (max_v e)
            sim (ou_actions e1) (Some (rsim_get_frame sim)) (frame e) (Some commands)
            (actions e1) (cumulative_reward_info e) (S (steps e)) in
    let rewards :=
      mkVec4 (add (of_Z 0) move) (add (of_Z 0) grad)
             (add (of_Z 0) energy) (add (of_Z 0) (of_Z goal)) in
    _frame_to_observations e2 = Some observation /\
    reward_components e2 = Some (move, grad, energy, goal) /\
    done = negb (Z.eqb goal 0) /\
    reward = (if stratified e then Stratified rewards
              else Scalar (weighted_sum rewards ori_weights)) /\
    info = reported_info
             (accumulate (default fresh_info (cumulative_reward_info e)) rewards)
             rewards /\
    e' = set_info e2 (Some info).
Proof.
  rewrite step_unfold. unfold base_step. intros H.
  destruct (_get_commands e action) as [[e1 cmds]|] eqn:Eg; simpl in H;
    [|discriminate].
  pose proof (_get_commands_config _ _ _ _ Eg)
    as (Hs & Hnb & Hny & Hf & Hm & Hr & Hfr & Hi).
  pose proof (_get_commands_rest _ _ _ _ Eg) as (_ & _ & Hst).
  rewrite Hs, Hnb, Hny, Hf, Hm, Hr, Hfr, Hi, Hst in H.
  destruct (_frame_to_observations _) as [ob|] eqn:Eo; simpl in H; [|discriminate].
  unfold _calculate_reward_and_done in H.
  destruct (reward_components _) as [[[[m g] en] gl]|] eqn:Er; simpl in H;
    [|discriminate].
  injection H as <- <- <- <- <-.
  exists e1, cmds, m, g, en, gl. split; [reflexivity|]. simpl.
  split; [exact Eo|]. split; [exact Er|]. repeat split.
Qed.

Lemma reward_components_cases (e : Env) move grad energy goal :
  reward_components e = Some (move, grad, energy, goal) ->
  (goal = 1%Z \/ goal = (-1)%Z \/ goal = 0%Z) /\
  (goal <> 0%Z -> move = of_Z 0 /\ grad = of_Z 0 /\ energy = of_Z 0) /\
  (energy = of_Z 0 \/
   exists c cs, sent_commands e = Some (c :: cs) /\
     energy = div (neg (add (fabs (Robot.v_wheel0 c)) (fabs (Robot.v_wheel1 c))))
                  energy_scale).
Proof.
  unfold reward_components. intros H.
  destruct (frame e) as [cur|]; simpl in H; [|discriminate].
  destruct (gtb _ _).
  { injection H as <- <- <- <-. repeat split; auto. }
  destruct (ltb _ _).
  { injection H as <- <- <- <-. repeat split; auto. }
  destruct (last_frame e).
  - destruct (__move_reward e) as [m|]; simpl in H; [|discriminate].
    destruct (__ball_grad e) as [g|]; simpl in H; [|discriminate].
    unfold __energy_penalty in H.
    destruct (sent_commands e) as [[|c cs]|]; simpl in H; try discriminate.
    injection H as <- <- <- <-.
    split; [auto|]. split; [intros Hc; contradiction|].
    right. exists c, cs. split; reflexivity.
  - injection H as <- <- <- <-. split; [auto|]. split; [intros Hc; contradiction|].
    left. reflexivity.
Qed.

(** X14: a step changes neither the mode, the robot counts, the field nor max_v,
    it keeps one noise source per slot, and what it returns as [info] is
    what the environment keeps as its accumulator. *)
Theorem step_keeps_configuration (e e' : Env) (action : F * F) out :
  step e action = Some (e', out) ->
  stratified e' = stratified e /\
  n_robots_blue e' = n_robots_blue e /\
  n_robots_yellow e' = n_robots_yellow e /\
  field e' = field e /\ max_v e' = max_v e /\
  length (ou_actions e') = length (ou_actions e) /\
  cumulative_reward_info e' = Some (snd out).
Proof.
  destruct out as [[[ob rw] d] info]. intros H.
  apply step_parts in H.
  destruct H as (e1 & cmds & m & g & en & gl & Hg & _ & _ & _ & _ & _ & ->).
  apply _get_commands_stages in Hg. destruct Hg as (amap & _ & Hlen & _).
  simpl. repeat split. exact Hlen.
Qed.

(** X15: whatever a step returns as observation has the encoded length
    4 + 7 n_robots_blue + 5 n_robots_yellow. *)
Theorem step_observation_length (e e' : Env) (action : F * F)
    observation reward done info :
  step e action = Some (e', (observation, reward, done, info)) ->
  length observation = (4 + 7 * n_robots_blue e + 5 * n_robots_yellow e)%nat.
Proof.
  intros H. apply step_parts in H.
  destruct H as (e1 & cmds & m & g & en & gl & _ & Ho & _).
  apply _frame_to_observations_length in Ho. exact Ho.
Qed.

End StepParts.

(** ** Rewards and info of a step, over the reals *)

Section StepRewards.
Context {ext : Collaborators R}.

Lemma Reqb_true (a b : R) : a = b -> Reqb a b = true.
Proof. intros H. unfold Reqb. destruct (Req_dec_T a b); [reflexivity|contradiction]. Qed.

Lemma Reqb_false (a b : R) : a <> b -> Reqb a b = false.
Proof. intros H. unfold Reqb. destruct (Req_dec_T a b); [contradiction|reflexivity]. Qed.

Lemma reward_components_no_goal (e : Env) cur move grad energy goal :
  frame e = Some cur ->
  ~ Ball.x (Frame.ball cur) > Field.length (field e) / 2 ->
  ~ Ball.x (Frame.ball cur) < - (Field.length (field e) / 2) ->
  reward_components e = Some (move, grad, energy, goal) ->
  goal = 0%Z.
Proof.
  intros Hc Hb Hy H. unfold reward_components, gtb in H. rewrite Hc in H.
  simpl in H. rewrite !Rltb_false in H by lra.
  destruct (last_frame e).
  - destruct (__move_reward e); simpl in H; [|discriminate].
    destruct (__ball_grad e); simpl in H; [|discriminate].
    destruct (__energy_penalty e); simpl in H; [|discriminate].
    congruence.
  - congruence.
Qed.

(** X16: in stratified mode the energy entry of a step's reward lies between
    -2 (max_v / rbt_wheel_radius) / 40000 and 0: the command the penalty is
    taken from is the one the actuator mapper has just bounded. *)
Theorem step_energy_range (e e' : Env) (action : R * R) observation v done info :
  stratified e = true ->
  0 <= max_v e -> 0 < Field.rbt_wheel_radius (field e) ->
  step e action = Some (e', (observation, Stratified v, done, info)) ->
  - (2 * (max_v e / Field.rbt_wheel_radius (field e))) / 40000 <= r2 v <= 0.
Proof.
  intros Hs Hm Hr H. apply step_parts in H.
  destruct H as (e1 & cmds & m & g & en & gl & Hg & _ & Hrc & _ & Hrw & _).
  rewrite Hs in Hrw. injection Hrw as ->. simpl.
  assert (Hb : 0 <= max_v e / Field.rbt_wheel_radius (field e)).
  { apply Rmult_le_pos; [exact Hm|]. left. apply Rinv_0_lt_compat. exact Hr. }
  apply reward_components_cases in Hrc. destruct Hrc as (_ & _ & [->|Hen]).
  - simpl. lra.
  - destruct Hen as (c & cs & Hsent & ->). simpl in Hsent.
    injection Hsent as ->.
    apply _get_commands_stages in Hg.
    destruct Hg as (amap & _ & _ & _ & _ & _ & _ & _ & _ & Hc0 & _).
    simpl in Hc0. injection Hc0 as ->.
    unfold energy_scale. simpl.
    pose proof (Rabs_div_le _ _ _ Hr (wheel_speed_bounds e (fst action) Hm)) as H0.
    pose proof (Rabs_div_le _ _ _ Hr (wheel_speed_bounds e (snd action) Hm)) as H1.
    pose proof (Rabs_pos (wheel_speed e (fst action) / Field.rbt_wheel_radius (field e))).
    pose proof (Rabs_pos (wheel_speed e (snd action) / Field.rbt_wheel_radius (field e))).
    lra.
Qed.

(** X17: what a step reports by the position of the ball in the new frame.  Past
    the right goal line: done, goal_blue 1, goal_yellow 0, and the reward is
    the vector (0, 0, 0, 1) or, in legacy mode, the scalar 0.008.  Past the
    left one: done, flags 0 and 1, the vector (0, 0, 0, -1) or the scalar
    -0.008.  Otherwise: not done and both flags 0. *)
Theorem step_goal_outcome (e e' : Env) (action : R * R) observation reward done info
    (cur : Frame.t R) :
  step e action = Some (e', (observation, reward, done, info)) ->
  frame e' = Some cur ->
  let x := Ball.x (Frame.ball cur) in
  let half := Field.length (field e) / 2 in
  let is_goal (side : R) :=
    if stratified e
    then exists v, reward = Stratified v /\
                   r0 v = 0 /\ r1 v = 0 /\ r2 v = 0 /\ r3 v = side
    else exists s, reward = Scalar s /\ s = side * (8 / 1000) in
  (x > half ->
   done = true /\ goal_blue info = Some 1%Z /\ goal_yellow info = Some 0%Z /\
   is_goal 1) /\
  (~ x > half -> x < - half ->
   done = true /\ goal_blue info = Some 0%Z /\ goal_yellow info = Some 1%Z /\
   is_goal (-1)) /\
  (~ x > half -> ~ x < - half ->
   done = false /\ goal_blue info = Some 0%Z /\ goal_yellow info = Some 0%Z).
Proof.
  intros H Hcur. apply step_parts in H.
  destruct H as (e1 & cmds & m & g & en & gl & _ & _ & Hrc & -> & -> & -> & ->).
  simpl in Hcur. simpl. unfold goal_flag. simpl. split; [|split].
  - intros Hb.
    erewrite reward_components_goal_blue in Hrc; [|reflexivity|].
    2:{ simpl. injection Hcur as <-. exact Hb. }
    injection Hrc as <- <- <- <-. simpl.
    rewrite Reqb_true by lra. rewrite Reqb_false by lra.
    repeat split. destruct (stratified e).
    + eexists. split; [reflexivity|]. simpl. repeat split; lra.
    + eexists. split; [reflexivity|]. unfold weighted_sum, ori_weights, dec. simpl. lra.
  - intros Hb Hy.
    erewrite reward_components_goal_yellow in Hrc; [|reflexivity| |].
    2:{ simpl. injection Hcur as <-. exact Hb. }
    2:{ simpl. injection Hcur as <-. exact Hy. }
    injection Hrc as <- <- <- <-. simpl.
    rewrite Reqb_false by lra. rewrite Reqb_true by lra.
    repeat split. destruct (stratified e).
    + eexists. split; [reflexivity|]. simpl. repeat split; lra.
    + eexists. split; [reflexivity|]. unfold weighted_sum, ori_weights, dec. simpl. lra.
  - intros Hb Hy.
    eapply reward_components_no_goal in Hrc; [|reflexivity| |].
    2:{ simpl. injection Hcur as <-. exact Hb. }
    2:{ simpl. injection Hcur as <-. exact Hy. }
    subst gl. simpl. rewrite !Reqb_false by lra. repeat split.
Qed.

End StepRewards.

(** ** The placement sampler: draws and frame contents *)

Section SamplerContents.
Context {ext : Collaborators R}.

Lemma redraw_consumes (e : Env) places :
  forall n (rng : Rng) pos pos' rng',
    (length rng <= n)%nat ->
    redraw e places pos rng = Some (pos', rng') ->
    exists used rejected,
      rng = used ++ rng' /\ length used = (2 * rejected)%nat.
Proof.
  induction n as [|n IH]; intros rng pos pos' rng' Hn H;
    rewrite redraw_eq in H;
    destruct (get_nearest places pos) as [[q d]|]; try discriminate;
    destruct (Rltb d (1 / 10)).
  - destruct rng as [|u1 [|u2 rng]]; try discriminate. simpl in Hn. lia.
  - injection H as <- <-. exists [], 0%nat. split; reflexivity.
  - destruct rng as [|u1 [|u2 rng]]; try discriminate.
    apply IH in H; [|simpl in Hn; lia].
    destruct H as (used & k & -> & Hl).
    exists (u1 :: u2 :: used), (S k). split; [reflexivity|]. simpl. lia.
  - injection H as <- <-. exists [], 0%nat. split; reflexivity.
Qed.

Lemma place_robot_sampling (e : Env) (rng0 : list R) (yellow : bool) (kb ky : nat)
    st st' :
  sampling_inv rng0 kb ky st ->
  place_robot e yellow (if yellow then ky else kb) st = Some st' ->
  sampling_inv rng0 (if yellow then kb else S kb) (if yellow then S ky else ky) st'.
Proof.
  destruct st as [[fr places] rng].
  intros ((used & rej & Hrng & Hused) & Hbx & Hby & Hdb & Hdy & Hb & Hy) H.
  unfold place_robot in H.
  destruct rng as [|u1 [|u2 rng]]; try discriminate.
  cbn [draw_pos mbind option_bind] in H.
  destruct (redraw e places (x_of e u1, y_of e u2) rng) as [[pos rng1]|] eqn:Er;
    [|discriminate].
  apply (redraw_consumes e places (length rng)) in Er; [|lia].
  destruct Er as (used1 & rej1 & -> & Hused1).
  cbn [mbind option_bind] in H.
  destruct rng1 as [|u3 rng2]; [discriminate|].
  cbn [random_uniform mbind option_bind] in H. injection H as <-.
  assert (Hin : In u3 rng0).
  { rewrite Hrng. apply in_or_app. right. right. right.
    apply in_or_app. right. left. reflexivity. }
  assert (Hnew : placed_at_rest rng0 (placed pos (uniform 0 360 u3))).
  { split; [exists u3; split; [exact Hin|reflexivity]|]. repeat split. }
  assert (Hpre : exists used' rejected',
             rng0 = used' ++ rng2 /\
             length used' = (2 + 3 * S (kb + ky) + 2 * rejected')%nat).
  { exists (used ++ u1 :: u2 :: used1 ++ [u3]), (rej + rej1)%nat. split.
    - rewrite Hrng. rewrite <- !app_assoc. simpl. rewrite <- app_assoc. reflexivity.
    - rewrite length_app. simpl. rewrite length_app. simpl. lia. }
  destruct yellow; unfold sampling_inv;
    cbn [Frame.ball Frame.robots_blue Frame.robots_yellow].
  - split.
    { destruct Hpre as (u' & r' & H1 & H2). exists u', r'. split; [exact H1|]. lia. }
    split; [exact Hbx|]. split; [exact Hby|]. split; [exact Hdb|].
    split; [|split; [exact Hb|]].
    + intros j. destruct (decide (j = ky)) as [->|Hne].
      * rewrite lookup_insert_eq. split; [lia|eauto].
      * rewrite lookup_insert_ne by congruence. rewrite Hdy. lia.
    + intros j r. destruct (decide (j = ky)) as [->|Hne].
      * rewrite lookup_insert_eq. intros [= <-]. exact Hnew.
      * rewrite lookup_insert_ne by congruence. apply Hy.
  - split.
    { destruct Hpre as (u' & r' & H1 & H2). exists u', r'. split; [exact H1|]. lia. }
    split; [exact Hbx|]. split; [exact Hby|].
    split; [|split; [exact Hdy|split; [|exact Hy]]].
    + intros i. destruct (decide (i = kb)) as [->|Hne].
      * rewrite lookup_insert_eq. split; [lia|eauto].
      * rewrite lookup_insert_ne by congruence. rewrite Hdb. lia.
    + intros i r. destruct (decide (i = kb)) as [->|Hne].
      * rewrite lookup_insert_eq. intros [= <-]. exact Hnew.
      * rewrite lookup_insert_ne by congruence. apply Hb.
Qed.

Lemma initial_positions_sampling (e : Env) (rng : Rng) st :
  initial_positions e rng = Some st ->
  sampling_inv rng (n_robots_blue e) (n_robots_yellow e) st.
Proof.
  intros H. unfold initial_positions in H.
  destruct rng as [|u1 [|u2 rng]]; try discriminate.
  cbn [draw_pos mbind option_bind fst snd] in H.
  match type of H with
  | context [for_range (place_robot e false) _ ?st0] =>
      destruct (for_range (place_robot e false) (seq 0 (n_robots_blue e)) st0)
        as [st1|] eqn:Eb; [|discriminate];
      assert (H0 : sampling_inv (u1 :: u2 :: rng) 0 0 st0)
  end.
  { unfold sampling_inv. cbn [Frame.ball Frame.robots_blue Frame.robots_yellow
                              Ball.v_x Ball.v_y].
    split; [exists [u1; u2], 0%nat; split; reflexivity|].
    split; [reflexivity|]. split; [reflexivity|].
    split; [|split; [|split]].
    - intros i. rewrite lookup_empty. split; [intros [? ?]; discriminate|lia].
    - intros i. rewrite lookup_empty. split; [intros [? ?]; discriminate|lia].
    - intros i r. rewrite lookup_empty. discriminate.
    - intros i r. rewrite lookup_empty. discriminate. }
  cbn [mbind option_bind] in H.
  apply (for_range_seq_inv (fun k => sampling_inv (u1 :: u2 :: rng) k 0)) in Eb;
    [|intros k x x' _ Hx Hp;
      exact (place_robot_sampling e _ false k 0 x x' Hx Hp)|exact H0].
  apply (for_range_seq_inv
           (fun k => sampling_inv (u1 :: u2 :: rng) (n_robots_blue e) k)) in H;
    [exact H|intros k x x' _ Hx Hp;
             exact (place_robot_sampling e _ true (n_robots_blue e) k x x' Hx Hp)
    |exact Eb].
Qed.

(** X18: the sampler calls [random()] twice for the ball, three times for every
    robot and twice more for every position it rejects, and hands the rest
    of the generator on. *)
Theorem _get_initial_positions_frame_draws (e : Env) (rng rng' : Rng)
    (fr : Frame.t R) :
  _get_initial_positions_frame e rng = Some (fr, rng') ->
  exists used rejected,
    rng = used ++ rng' /\
    length used =
      (2 + 3 * (n_robots_blue e + n_robots_yellow e) + 2 * rejected)%nat.
Proof.
  intros H. unfold _get_initial_positions_frame in H.
  destruct (initial_positions e rng) as [[[fr0 places] rng0]|] eqn:E;
    [|discriminate].
  cbn [mbind option_bind] in H. injection H as <- <-.
  apply initial_positions_sampling in E. destruct E as (Hu & _). exact Hu.
Qed.

(** X19: the frame the sampler returns holds exactly the blue robots
    0 .. n_robots_blue - 1 and the yellow robots 0 .. n_robots_yellow - 1;
    the ball and every robot are at rest, and every heading lies in
    [0, 360). *)
Theorem _get_initial_positions_frame_contents (e : Env) (rng rng' : Rng)
    (fr : Frame.t R) :
  unit_draws rng ->
  _get_initial_positions_frame e rng = Some (fr, rng') ->
  let at_rest (r : Robot.t R) :=
    0 <= Robot.theta r < 360 /\
    Robot.v_x r = 0 /\ Robot.v_y r = 0 /\ Robot.v_theta r = 0 /\
    Robot.v_wheel0 r = 0 /\ Robot.v_wheel1 r = 0 in
  Ball.v_x (Frame.ball fr) = 0 /\ Ball.v_y (Frame.ball fr) = 0 /\
  (forall i, is_Some (Frame.robots_blue fr !! i) <-> (i < n_robots_blue e)%nat) /\
  (forall j, is_Some (Frame.robots_yellow fr !! j) <-> (j < n_robots_yellow e)%nat) /\
  (forall i r, Frame.robots_blue fr !! i = Some r -> at_rest r) /\
  (forall j r, Frame.robots_yellow fr !! j = Some r -> at_rest r).
Proof.
  intros Hunit H. unfold _get_initial_positions_frame in H.
  destruct (initial_positions e rng) as [[[fr0 places] rng0]|] eqn:E;
    [|discriminate].
  cbn [mbind option_bind] in H. injection H as <- <-.
  apply initial_positions_sampling in E.
  destruct E as (_ & Hbx & Hby & Hdb & Hdy & Hb & Hy).
  assert (Hrest : forall r, placed_at_rest rng r ->
            0 <= Robot.theta r < 360 /\
            Robot.v_x r = 0 /\ Robot.v_y r = 0 /\ Robot.v_theta r = 0 /\
            Robot.v_wheel0 r = 0 /\ Robot.v_wheel1 r = 0).
  { intros r ((u & Hin & Hth) & Hv). split; [|exact Hv].
    rewrite Hth. unfold unit_draws in Hunit.
    rewrite Forall_forall in Hunit. apply list_elem_of_In in Hin.
    specialize (Hunit u Hin). unfold uniform. simpl. lra. }
  simpl. split; [exact Hbx|]. split; [exact Hby|].
  split; [exact Hdb|]. split; [exact Hdy|]. split.
  - intros i r Hr. apply Hrest. exact (Hb i r Hr).
  - intros j r Hr. apply Hrest. exact (Hy j r Hr).
Qed.

End SamplerContents.

(** ** Episodes: info against the rewards handed out, and reset *)

Section Episodes.
Context {ext : Collaborators R}.

Lemma total_weighted (vs : list (Vec4 R)) :
  total (map (fun v => weighted_sum v ori_weights) vs) =
  total (map r0 vs) * (66 / 100) + total (map r1 vs) * (32 / 100) +
  total (map r2 vs) * (53 / 10000) + total (map r3 vs) * (8 / 1000).
Proof.
  induction vs as [|v vs IH].
  - simpl. rewrite !total_nil. lra.
  - cbn [map]. rewrite !total_cons, IH.
    unfold weighted_sum, ori_weights, dec. simpl. lra.
Qed.

(** X20: in every info an episode reports, the legacy total [Original_reward] is
    the weighted sum of the four component totals, with the weights 0.66,
    0.32, 0.0053 and 0.008. *)
Theorem info_weighted_total (e e' : Env) (acts : list (R * R)) vs infos info :
  cumulative_reward_info e = None ->
  run e acts = Some (e', vs, infos) ->
  last infos = Some info ->
  Original_reward info =
    reward_move info * (66 / 100) + reward_ball_grad info * (32 / 100) +
    reward_energy info * (53 / 10000) + reward_goal info * (8 / 1000).
Proof.
  intros Hnone Hrun Hlast.
  apply run_totals in Hrun. destruct Hrun as (_ & _ & Ht).
  apply Ht in Hlast. rewrite Hnone in Hlast.
  destruct Hlast as (H0 & H1 & H2 & H3 & H4).
  rewrite H0, H1, H2, H3, H4, total_weighted. simpl. lra.
Qed.

Lemma returned_rewards_of_run (acts : list (R * R)) :
  forall (e e' : Env) vs infos rs,
    run e acts = Some (e', vs, infos) ->
    returned_rewards e acts = Some rs ->
    rs = map (fun v => if stratified e then Stratified v
                       else Scalar (weighted_sum v ori_weights)) vs.
Proof.
  induction acts as [|a acts IH]; intros e e' vs infos rs Hrun Hrs;
    simpl in Hrun, Hrs.
  - injection Hrun as <- <- <-. injection Hrs as <-. reflexivity.
  - rewrite step_unfold in Hrun, Hrs.
    destruct (base_step e a) as [[e1 [[ob sr] d]]|] eqn:Eb; simpl in Hrun, Hrs;
      [|discriminate].
    apply base_step_info in Eb. destruct Eb as [Hs _].
    destruct (run _ acts) as [[[e2 vs'] infos']|] eqn:Er; simpl in Hrun;
      [|discriminate].
    destruct (returned_rewards _ acts) as [rs'|] eqn:Err; simpl in Hrs;
      [|discriminate].
    injection Hrun as <- <- <-. injection Hrs as <-.
    specialize (IH _ _ _ _ _ Er Err). simpl in IH. rewrite Hs in IH.
    simpl. rewrite IH. reflexivity.
Qed.

(** X21: the info of the last step agrees with the rewards the consumer was
    handed during the episode: in legacy mode [Original_reward] is the sum of
    the scalars returned, in stratified mode the four component totals are
    the entrywise sums of the vectors returned. *)
Theorem info_totals_of_returned_rewards (e e' : Env) (acts : list (R * R))
    vs infos info rs :
  cumulative_reward_info e = None ->
  run e acts = Some (e', vs, infos) ->
  returned_rewards e acts = Some rs ->
  last infos = Some info ->
  if stratified e
  then exists returned,
         rs = map Stratified returned /\
         reward_move info = total (map r0 returned) /\
         reward_ball_grad info = total (map r1 returned) /\
         reward_energy info = total (map r2 returned) /\
         reward_goal info = total (map r3 returned)
  else exists returned,
         rs = map Scalar returned /\
         Original_reward info = total returned.
Proof.
  intros Hnone Hrun Hrs Hlast.
  pose proof (returned_rewards_of_run _ _ _ _ _ _ Hrun Hrs) as Heq.
  apply run_totals in Hrun. destruct Hrun as (_ & _ & Ht).
  apply Ht in Hlast. rewrite Hnone in Hlast.
  destruct Hlast as (H0 & H1 & H2 & H3 & H4).
  destruct (stratified e).
  - exists vs. split; [exact Heq|]. rewrite H0, H1, H2, H3. simpl.
    repeat split; lra.
  - exists (map (fun v => weighted_sum v ori_weights) vs).
    split; [rewrite map_map; exact Heq|]. rewrite H4. simpl. lra.
Qed.

(** X22: whatever the environment had accumulated, [reset] leaves it with no
    accumulator and no recorded actions, with every noise source reset and
    the configuration untouched; the observation it returns has the encoded
    length; and the totals of the steps that follow start from zero. *)
Theorem reset_starts_episode (e e0 : Env) (rng rng' : Rng) observation :
  reset e rng = Some (e0, observation, rng') ->
  cumulative_reward_info e0 = None /\
  actions e0 = None /\
  ou_actions e0 = map ou_reset (ou_actions e) /\
  stratified e0 = stratified e /\
  n_robots_blue e0 = n_robots_blue e /\
  n_robots_yellow e0 = n_robots_yellow e /\
  field e0 = field e /\ max_v e0 = max_v e /\
  length observation = (4 + 7 * n_robots_blue e + 5 * n_robots_yellow e)%nat /\
  forall acts e' vs infos info,
    run e0 acts = Some (e', vs, infos) ->
    last infos = Some info ->
    reward_move info = total (map r0 vs) /\
    reward_ball_grad info = total (map r1 vs) /\
    reward_energy info = total (map r2 vs) /\
    reward_goal info = total (map r3 vs) /\
    Original_reward info = total (map (fun v => weighted_sum v ori_weights) vs).
Proof.
  unfold reset. intros H.
  destruct (_get_initial_positions_frame e rng) as [[fr rng1]|] eqn:Es;
    simpl in H; [|discriminate].
  destruct (_frame_to_observations _) as [ob|] eqn:Eo; simpl in H; [|discriminate].
  injection H as <- <- <-. simpl.
  do 8 (split; [reflexivity|]).
  split; [apply _frame_to_observations_length in Eo; exact Eo|].
  intros acts e' vs infos info Hrun Hlast.
  apply run_totals in Hrun. destruct Hrun as (_ & _ & Ht).
  apply Ht in Hlast. destruct Hlast as (H0 & H1 & H2 & H3 & H4).
  rewrite H0, H1, H2, H3, H4. simpl. repeat split; lra.
Qed.

(** X23: every command [_get_commands] builds, for the learning robot and for the
    noise-driven ones alike, has both wheel speeds within
    max_v / rbt_wheel_radius, whatever the noise sources sample. *)
Theorem _get_commands_bounded (e e1 : Env) (acts : R * R) commands :
  0 <= max_v e -> 0 < Field.rbt_wheel_radius (field e) ->
  _get_commands e acts = Some (e1, commands) ->
  forall k c,
    commands !! k = Some c ->
    Rabs (Robot.v_wheel0 c) <= max_v e / Field.rbt_wheel_radius (field e) /\
    Rabs (Robot.v_wheel1 c) <= max_v e / Field.rbt_wheel_radius (field e).
Proof.
  intros Hm Hr H k c Hk. apply _get_commands_stages in H.
  destruct H as (amap & _ & _ & _ & _ & _ & _ & _ & Hlen & Hc0 & Hcb & Hcy).
  assert (Hb : forall y i a,
             c = command y i (_actions_to_v_wheels e a) ->
             Rabs (Robot.v_wheel0 c) <= max_v e / Field.rbt_wheel_radius (field e) /\
             Rabs (Robot.v_wheel1 c) <= max_v e / Field.rbt_wheel_radius (field e)).
  { intros y i a ->. simpl.
    split; apply Rabs_div_le; try exact Hr; apply wheel_speed_bounds; exact Hm. }
  pose proof (lookup_lt_Some _ _ _ Hk) as Hlt. rewrite Hlen in Hlt.
  destruct (decide (k = 0%nat)) as [->|H0].
  { rewrite Hc0 in Hk. injection Hk as <-. eapply Hb. reflexivity. }
  destruct (decide (k < 1 + (n_robots_blue e - 1))%nat) as [Hkb|Hkb].
  - destruct (Hcb k) as (ou & _ & Hc); [lia|].
    rewrite Hc in Hk. injection Hk as <-. eapply Hb. reflexivity.
  - destruct (Hcy (k - (1 + (n_robots_blue e - 1)))%nat) as (ou & _ & Hc); [lia|].
    replace (1 + (n_robots_blue e - 1) + (k - (1 + (n_robots_blue e - 1))))%nat
      with k in Hc by lia.
    rewrite Hc in Hk. injection Hk as <-. eapply Hb. reflexivity.
Qed.

End Episodes.

(** ** Construction *)

Section Construction.
Context {F : Type} {num : Num F} {npx : NumpyExt F} {ext : Collaborators F}.

(** X24: [__init__] appends exactly one noise source per robot, which is what
    [_get_commands] needs: on an environment with a source per robot it
    raises nothing and leaves a source per robot behind, so that no later
    call can raise either. *)
Theorem __init___sources (strat : bool) (nb ny : nat) sim fld maxv fresh :
  let e0 := __init__ strat nb ny sim fld maxv fresh in
  length (ou_actions e0) = (n_robots_blue e0 + n_robots_yellow e0)%nat /\
  forall (e : Env) (acts : F * F),
    (n_robots_blue e + n_robots_yellow e <= length (ou_actions e))%nat ->
    exists e1 commands,
      _get_commands e acts = Some (e1, commands) /\
      (n_robots_blue e1 + n_robots_yellow e1 <= length (ou_actions e1))%nat.
Proof.
  simpl. split; [apply length_replicate|].
  intros e acts Hlen.
  destruct (_get_commands_total e acts Hlen) as (e1 & c & cs & Hg).
  exists e1, (c :: cs). split; [exact Hg|].
  pose proof (_get_commands_config _ _ _ _ Hg) as (_ & Hnb & Hny & _).
  apply _get_commands_stages in Hg. destruct Hg as (amap & _ & Hl & _).
  simpl in Hl. rewrite Hnb, Hny, Hl. exact Hlen.
Qed.

End Construction.

(** ** The further properties at concrete inputs *)

Ltac settle_Rabs :=
  simpl; unfold Rabs; repeat destruct (Rcase_abs _); lra.

Lemma _actions_to_v_wheels_linear_witness :
  _actions_to_v_wheels (env_start true) (1 / 2, -1) = (30, -60).
Proof.
  rewrite (_actions_to_v_wheels_linear (env_start true) (1 / 2, -1)).
  - simpl. f_equal; field.
  - simpl. lra.
  - simpl. lra.
  - simpl. lra.
  - settle_Rabs.
  - settle_Rabs.
Defined.

Lemma _actions_to_v_wheels_saturates_witness :
  fst (_actions_to_v_wheels (env_start true) (3, 0))
  = fst (_actions_to_v_wheels (env_start true) (1, 0)).
Proof.
  apply (proj1 (_actions_to_v_wheels_saturates (env_start true) (3, 0)
                  ltac:(simpl; lra))).
  simpl. lra.
Defined.

Lemma _actions_to_v_wheels_odd_witness :
  _actions_to_v_wheels (env_start true) (- (1 / 2), - (1 / 4)) =
  (- fst (_actions_to_v_wheels (env_start true) (1 / 2, 1 / 4)),
   - snd (_actions_to_v_wheels (env_start true) (1 / 2, 1 / 4))).
Proof.
  exact (_actions_to_v_wheels_odd (env_start true) (1 / 2, 1 / 4)
           ltac:(simpl; lra)).
Defined.

Lemma _actions_to_v_wheels_gap_witness :
  fst (_actions_to_v_wheels (env_start true) (1 / 30, 1 / 2)) = 0 \/
  5 / 100 / (2 / 100)
  <= Rabs (fst (_actions_to_v_wheels (env_start true) (1 / 30, 1 / 2))).
Proof.
  exact (proj1 (_actions_to_v_wheels_gap (env_start true) (1 / 30, 1 / 2)
                  ltac:(simpl; lra))).
Defined.

Lemma _actions_to_v_wheels_monotone_witness :
  fst (_actions_to_v_wheels (env_start true) (1 / 4, 0))
  <= fst (_actions_to_v_wheels (env_start true) (1 / 2, 0)).
Proof.
  apply (proj1 (_actions_to_v_wheels_monotone (env_start true) (1 / 4) (1 / 2) 0 0
                  ltac:(simpl; lra) ltac:(simpl; lra) ltac:(lra) ltac:(lra))).
Defined.

Lemma env_start_commands (strat : bool) (acts : R * R) :
  exists e1 c cs, _get_commands (env_start strat) acts = Some (e1, c :: cs).
Proof. apply _get_commands_total. simpl. lia. Qed.

Lemma _get_commands_layout_witness :
  exists e1 commands,
    _get_commands (env_start true) (1, -1) = Some (e1, commands) /\
    length commands = 2%nat /\
    commands !! 0%nat
    = Some (command false 0 (_actions_to_v_wheels (env_start true) (1, -1))).
Proof.
  destruct (env_start_commands true (1, -1)) as (e1 & c & cs & Hg).
  destruct (_get_commands_layout _ _ _ _ Hg) as (Hl & H0 & _).
  exists e1, (c :: cs). split; [exact Hg|]. split; [exact Hl|exact H0].
Defined.

Lemma _get_commands_sources_witness :
  exists e1 commands,
    _get_commands (env_start true) (1, -1) = Some (e1, commands) /\
    length (ou_actions e1) = 2%nat /\
    ou_actions e1 !! 0%nat = ou_actions (env_start true) !! 0%nat.
Proof.
  destruct (env_start_commands true (1, -1)) as (e1 & c & cs & Hg).
  destruct (_get_commands_sources _ _ _ _ Hg) as (Hl & _ & _ & H0).
  exists e1, (c :: cs). split; [exact Hg|]. split; [exact Hl|].
  apply H0. simpl. lia.
Defined.

Lemma _get_commands_actions_witness :
  exists e1 commands amap,
    _get_commands (env_start true) (1, -1) = Some (e1, commands) /\
    actions e1 = Some amap /\
    amap !! 0%nat = Some (1, -1) /\ amap !! 1%nat = None.
Proof.
  destruct (env_start_commands true (1, -1)) as (e1 & c & cs & Hg).
  destruct (_get_commands_actions _ _ _ _ Hg) as (amap & Ha & H0 & _ & Hn).
  exists e1, (c :: cs), amap. split; [exact Hg|]. split; [exact Ha|].
  split; [exact H0|]. apply Hn; simpl; lia.
Defined.

Lemma _get_commands_bounded_witness :
  exists e1 c cs,
    _get_commands (env_start true) (1, -1) = Some (e1, c :: cs) /\
    Rabs (Robot.v_wheel0 c) <= 12 / 10 / (2 / 100) /\
    Rabs (Robot.v_wheel1 c) <= 12 / 10 / (2 / 100).
Proof.
  destruct (env_start_commands true (1, -1)) as (e1 & c & cs & Hg).
  exists e1, c, cs. split; [exact Hg|].
  exact (_get_commands_bounded (env_start true) e1 (1, -1) (c :: cs)
           ltac:(simpl; lra) ltac:(simpl; lra) Hg 0%nat c eq_refl).
Defined.


Lemma __move_reward_bound_witness :
  exists move,
    __move_reward (env_running 0) = Some move /\ Rabs move <= np_norm 1 0 / 120.
Proof.
  apply (__move_reward_bound (env_running 0) (real_frame 0)
           (real_robot (-1 / 2) 0 1 0)).
  - reflexivity.
  - apply lookup_insert_eq.
  - simpl. intros [= H]. lra.
Defined.

Lemma __ball_grad_bound_witness :
  exists grad,
    __ball_grad (env_running 1) = Some grad /\
    Rabs grad <= np_norm (1 - 0) (0 - 0) / (75 / 100).
Proof.
  destruct (__ball_grad_bound (env_running 1) (real_frame 0) (real_frame 1)
              eq_refl eq_refl) as (g & Hg & Hb & _).
  exists g. split; [exact Hg|exact Hb].
Defined.

Lemma real_env_steps (strat : bool) (x : R) last cmds (action : R * R) :
  is_Some (step (real_env strat (real_frame x) last cmds) action).
Proof.
  rewrite step_unfold.
  unfold base_step, _get_commands, _frame_to_observations,
    _calculate_reward_and_done, reward_components, gtb, real_env, real_frame.
  simpl. rewrite ?lookup_insert_eq. simpl.
  destruct (Rltb _ x); [simpl; eauto|].
  destruct (Rltb x _); [simpl; eauto|].
  destruct last as [last|]; simpl; [|eauto].
  unfold __move_reward, __ball_grad, __energy_penalty. simpl.
  rewrite ?lookup_insert_eq. simpl. eauto.
Qed.

Lemma one_step_run {ext : Collaborators R} (e : Env) (action : R * R) :
  is_Some (step e action) ->
  exists e' v i r,
    run e [action] = Some (e', [v], [i]) /\
    returned_rewards e [action] = Some [r].
Proof.
  intros [[e' [[[ob rw] d] info]] Hs]. simpl. rewrite Hs. simpl.
  rewrite step_unfold in Hs.
  destruct (base_step e action) as [[e1 [[ob1 sr] d1]]|]; [|discriminate].
  simpl. eexists _, _, _, _. split; reflexivity.
Qed.

Lemma step_keeps_configuration_witness :
  exists e' out,
    step (env_start false) (1, -1) = Some (e', out) /\
    stratified e' = false /\ length (ou_actions e') = 2%nat /\
    cumulative_reward_info e' = Some (snd out).
Proof.
  destruct (real_env_steps false 0 None None (1, -1)) as [[e' out] Hs].
  destruct (step_keeps_configuration _ _ _ _ Hs) as (H1 & _ & _ & _ & _ & H2 & H3).
  exists e', out. split; [exact Hs|]. split; [exact H1|]. split; [exact H2|exact H3].
Defined.

Lemma step_observation_length_witness :
  exists e' observation reward done info,
    step (env_start false) (1, -1) = Some (e', (observation, reward, done, info)) /\
    length observation = 16%nat.
Proof.
  destruct (real_env_steps false 0 None None (1, -1))
    as [[e' [[[ob rw] d] info]] Hs].
  exists e', ob, rw, d, info. split; [exact Hs|].
  exact (step_observation_length _ _ _ _ _ _ _ Hs).
Defined.

Lemma step_energy_range_witness :
  exists e' observation w done info,
    step env_playing (1, -1) = Some (e', (observation, Stratified w, done, info)) /\
    - (2 * (12 / 10 / (2 / 100))) / 40000 <= r2 w <= 0.
Proof.
  destruct (real_env_steps true 0 (Some (real_frame 0))
              (Some [command false 0 (40, -20)]) (1, -1))
    as [[e' [[[ob rw] d] info]] Hs].
  pose proof (step_parts _ _ _ _ _ _ _ Hs)
    as (? & ? & ? & ? & ? & ? & _ & _ & _ & _ & Hrw & _).
  simpl in Hrw. subst rw.
  eexists e', ob, _, d, info. split; [exact Hs|].
  exact (step_energy_range env_playing e' (1, -1) ob _ d info eq_refl
           ltac:(simpl; lra) ltac:(simpl; lra) Hs).
Defined.

Lemma step_goal_outcome_witness :
  exists e' observation reward info,
    step env_scoring (0, 0) = Some (e', (observation, reward, true, info)) /\
    goal_blue info = Some 1%Z /\ goal_yellow info = Some 0%Z /\
    exists s, reward = Scalar s /\ s = 1 * (8 / 1000).
Proof.
  destruct (real_env_steps false 1 (Some (real_frame 1))
              (Some [command false 0 (40, -20)]) (0, 0))
    as [[e' [[[ob rw] d] info]] Hs].
  assert (Hfr : frame e' = Some (real_frame 1)).
  { pose proof (step_parts _ _ _ _ _ _ _ Hs)
      as (? & ? & ? & ? & ? & ? & _ & _ & _ & _ & _ & _ & ->).
    reflexivity. }
  destruct (step_goal_outcome env_scoring e' (0, 0) ob rw d info (real_frame 1)
              Hs Hfr) as (Hgoal & _).
  destruct Hgoal as (-> & Hb & Hy & Hr); [simpl; lra|].
  exists e', ob, rw, info. split; [exact Hs|]. split; [exact Hb|].
  split; [exact Hy|]. exact Hr.
Defined.

Lemma info_weighted_total_witness :
  exists e' v i,
    run (env_start true) [(1, -1)] = Some (e', [v], [i]) /\
    Original_reward i =
      reward_move i * (66 / 100) + reward_ball_grad i * (32 / 100) +
      reward_energy i * (53 / 10000) + reward_goal i * (8 / 1000).
Proof.
  destruct (one_step_run (env_start true) (1, -1)
              (real_env_steps true 0 None None (1, -1)))
    as (e' & v & i & r & Hrun & _).
  exists e', v, i. split; [exact Hrun|].
  exact (info_weighted_total (env_start true) e' [(1, -1)] [v] [i] i
           eq_refl Hrun eq_refl).
Defined.

Lemma info_totals_of_returned_rewards_witness :
  exists e' v i r returned,
    run (env_start false) [(1, -1)] = Some (e', [v], [i]) /\
    returned_rewards (env_start false) [(1, -1)] = Some [r] /\
    [r] = map Scalar returned /\
    Original_reward i = total returned.
Proof.
  destruct (one_step_run (env_start false) (1, -1)
              (real_env_steps false 0 None None (1, -1)))
    as (e' & v & i & r & Hrun & Hrs).
  destruct (info_totals_of_returned_rewards (env_start false) e' [(1, -1)]
              [v] [i] i [r] eq_refl Hrun Hrs eq_refl) as (returned & H1 & H2).
  exists e', v, i, r, returned. split; [exact Hrun|]. split; [exact Hrs|].
  split; [exact H1|exact H2].
Defined.

Lemma sampler_frame (e : Env (ext := still_world R)) :
  n_robots_blue e = 1%nat -> n_robots_yellow e = 1%nat ->
  field e = Field.mk (15 / 10) (13 / 10) (2 / 100) ->
  _get_initial_positions_frame e sampler_draws = Some (sampled_frame, [1 / 3]).
Proof.
  intros Hb Hy Hf. destruct e as [st nb ny fd mv sim ous fr lst cmds acts inf n].
  simpl in Hb, Hy, Hf. subst nb ny fd.
  set (E := mkEnv st 1 1 _ mv sim ous fr lst cmds acts inf n).
  assert (Hx1 : x_of E (1 / 2) = 0).
  { unfold x_of, uniform, field_half_length, dec. simpl. field. }
  assert (Hy1 : y_of E (1 / 2) = 0).
  { unfold y_of, uniform, field_half_width, dec. simpl. field. }
  assert (Hx2 : x_of E 0 = -65 / 100).
  { unfold x_of, uniform, field_half_length, dec. simpl. field. }
  assert (Hx3 : x_of E (3 / 4) = 325 / 1000).
  { unfold x_of, uniform, field_half_length, dec. simpl. field. }
  assert (D1 : kd_dist (0, 0) (0, 0) = 0).
  { rewrite kd_dist_axis. rewrite Rabs_pos_eq; lra. }
  assert (D2 : kd_dist (0, 0) (-65 / 100, 0) = 65 / 100).
  { rewrite kd_dist_axis. rewrite Rabs_pos_eq; lra. }
  assert (D3 : kd_dist (0, 0) (325 / 1000, 0) = 325 / 1000).
  { rewrite kd_dist_axis. rewrite Rabs_left; lra. }
  assert (D4 : kd_dist (-65 / 100, 0) (325 / 1000, 0) = 975 / 1000).
  { rewrite kd_dist_axis. rewrite Rabs_left; lra. }
  unfold _get_initial_positions_frame, initial_positions, sampler_draws.
  cbn -[x_of y_of kd_dist Rltb redraw].
  rewrite Hx1, Hy1.
  rewrite redraw_eq. cbn -[x_of y_of kd_dist Rltb redraw].
  rewrite D1. settle_Rltb. rewrite Hx2, Hy1.
  rewrite redraw_eq. cbn -[x_of y_of kd_dist Rltb redraw].
  rewrite D2. settle_Rltb. cbn -[x_of y_of kd_dist Rltb redraw].
  rewrite Hx3, Hy1.
  rewrite redraw_eq. cbn -[x_of y_of kd_dist Rltb redraw].
  rewrite D3, D4. settle_Rltb. cbn -[x_of y_of kd_dist Rltb redraw].
  reflexivity.
Qed.

Lemma sampler_returns (strat : bool) cur last cmds :
  exists fr,
    _get_initial_positions_frame (real_env strat cur last cmds) sampler_draws
    = Some (fr, [1 / 3]).
Proof. exists sampled_frame. apply sampler_frame; reflexivity. Qed.

Lemma _get_initial_positions_frame_draws_witness :
  exists fr used rejected,
    _get_initial_positions_frame (env_start true) sampler_draws = Some (fr, [1 / 3]) /\
    sampler_draws = used ++ [1 / 3] /\
    length used = (2 + 3 * (1 + 1) + 2 * rejected)%nat.
Proof.
  destruct (sampler_returns true (real_frame 0) None None) as (fr & Hs).
  destruct (_get_initial_positions_frame_draws _ _ _ _ Hs) as (used & rej & H1 & H2).
  exists fr, used, rej. split; [exact Hs|]. split; [exact H1|exact H2].
Defined.

Lemma _get_initial_positions_frame_contents_witness :
  exists fr r,
    _get_initial_positions_frame (env_start true) sampler_draws = Some (fr, [1 / 3]) /\
    Frame.robots_blue fr !! 0%nat = Some r /\
    Frame.robots_blue fr !! 1%nat = None /\
    0 <= Robot.theta r < 360.
Proof.
  destruct (sampler_returns true (real_frame 0) None None) as (fr & Hs).
  destruct (_get_initial_positions_frame_contents _ _ _ _ sampler_draws_unit Hs)
    as (_ & _ & Hdb & _ & Hb & _).
  destruct (proj2 (Hdb 0%nat) ltac:(simpl; lia)) as [r Hr].
  exists fr, r. split; [exact Hs|]. split; [exact Hr|]. split.
  - destruct (Frame.robots_blue fr !! 1%nat) as [r1|] eqn:E1; [|reflexivity].
    exfalso. assert (H : (1 < 1)%nat) by (apply (Hdb 1%nat); eauto). lia.
  - exact (proj1 (Hb 0%nat r Hr)).
Defined.

Lemma still_reset_returns (e : Env (ext := still_world R)) (rng rng' : Rng) fr :
  1 / 10 <= Field.length (field e) / 2 ->
  1 / 10 <= Field.width (field e) / 2 ->
  unit_draws rng ->
  _get_initial_positions_frame e rng = Some (fr, rng') ->
  exists e0 observation, reset e rng = Some (e0, observation, rng').
Proof.
  intros Hl Hw Hu Hs. unfold reset. rewrite Hs. simpl.
  unfold _get_initial_positions_frame in Hs.
  destruct (initial_positions e rng) as [[[fr0 places] rng0]|] eqn:E;
    [|discriminate].
  cbn [mbind option_bind] in Hs. injection Hs as <- <-.
  apply (initial_positions_inv e Hl Hw) in E; [|exact Hu].
  destruct E as (_ & _ & _ & _ & _ & Hb & Hy).
  match goal with
  | |- context [_frame_to_observations ?e1] =>
      destruct (_frame_to_observations_complete e1 fr0 eq_refl) as (ob & -> & _)
  end.
  - split; simpl; intros i Hi.
    + destruct (Hb i Hi) as (r & Hr & _). eauto.
    + destruct (Hy i Hi) as (r & Hr & _). eauto.
  - simpl. eauto.
Qed.

Lemma reset_starts_episode_witness :
  exists e0 observation,
    reset (env_running 0) sampler_draws = Some (e0, observation, [1 / 3]) /\
    cumulative_reward_info e0 = None /\ actions e0 = None /\
    length observation = 16%nat.
Proof.
  destruct (sampler_returns false (real_frame 0) (Some (real_frame 0))
              (Some [command false 0 (40, -20)])) as (fr & Hs).
  destruct (still_reset_returns (env_running 0) sampler_draws [1 / 3] fr
              ltac:(simpl; lra) ltac:(simpl; lra) sampler_draws_unit Hs)
    as (e0 & ob & Hr).
  destruct (reset_starts_episode _ _ _ _ _ Hr) as (H1 & H2 & _ & _ & _ & _ & _ & _ & H3 & _).
  exists e0, ob. split; [exact Hr|]. split; [exact H1|]. split; [exact H2|exact H3].
Defined.

(** ** The energy penalty on every step of an episode *)

Section EnergyEveryStep.
Context {ext : Collaborators R}.





End EnergyEveryStep.




